(** * filterfs: fs.FS wrappers that hide paths

    A shallow embedding of the Go package [filterfs] and proofs about it.

    The package has two source files with the same exported names:
    - [filter.go]: [ExcludePaths] over a struct [excludePathsFS] holding a
      [map[string]bool];
    - the second file: [ExcludeFn] over a struct [excludeFnFS] holding a
      predicate, and [ExcludePaths] written on top of [ExcludeFn].
    Both contain the same [pathPrefixes].

    Layout of this development:
    - [filepath], [strings]: the parts of the Go standard library the package
      calls ([filepath.Clean], [filepath.Dir], [filepath.Join]) on Unix;
    - [fs]: errors, [fs.File], [fs.ReadDirFile], [fs.FS] as records of
      operations over an explicit state of the underlying storage;
    - [PathsFS]: filter.go;  [FnFS]: the second file;
    - [MemFS]: small concrete filesystems used to run the definitions;
    - [Slices]: the two [ReadDir] methods once more, on the slice in memory;
    - the theory of [Clean]/[Dir]/[pathPrefixes], then the properties. *)

From Stdlib Require Import Ascii String.
From stdpp Require Import base strings list gmap pretty.

(** ** Go standard library: strings *)

Module strings.

(** [strings.Join(elems, sep)] *)
Fixpoint Join (elems : list string) (sep : string) : string :=
  match elems with
  | [] => ""
  | [e] => e
  | e :: rest => e +:+ sep +:+ Join rest sep
  end.

End strings.

(** ** Go standard library: path/filepath (Unix) *)

(** Go's [Clean] reads the path byte by byte, and every iteration of its
    loop consumes either one separator or one whole element (an empty one,
    [.], [..], or a name, which it copies up to the next separator). The
    model runs the same loop over the elements of the path, with the output
    buffer kept as the list of the elements written to it. *)

Module filepath.

Definition Separator : ascii := "/"%char.

(** [os.IsPathSeparator] *)
Definition IsPathSeparator (c : ascii) : bool := Ascii.eqb c Separator.

(** The path elements that the reading index [r] of [Clean] walks over:
    the maximal runs of non-separator bytes, an empty run between two
    adjacent separators and at either end. *)
Fixpoint elements (path : string) : list string :=
  match path with
  | "" => [""]
  | String c rest =>
      if IsPathSeparator c then "" :: elements rest
      else match elements rest with
           | e :: es => String c e :: es
           | [] => [String c ""]
           end
  end.

(** The output buffer of [Clean]: the elements written so far, the most
    recent first, and [dotdot], the number of elements at the bottom of the
    buffer that a [..] may not remove (Go keeps it as a byte index). *)
Record lazybuf := { out : list string; dotdot : nat }.

(** One iteration of the loop of [Clean], on the element that starts at
    the reading index. *)
Definition clean_elem (rooted : bool) (b : lazybuf) (e : string) : lazybuf :=
  if decide (e = "") then b                       (* empty path element *)
  else if decide (e = ".") then b                 (* . element *)
  else if decide (e = "..") then                  (* .. element *)
    if decide (dotdot b < length (out b)) then
      {| out := tail (out b); dotdot := dotdot b |}           (* can backtrack *)
    else if negb rooted then                                  (* cannot backtrack, not rooted *)
      {| out := ".." :: out b; dotdot := S (length (out b)) |}
    else b
  else {| out := e :: out b; dotdot := dotdot b |}.           (* real path element *)

(** The bytes of the buffer: the elements, oldest first, with one
    separator between two of them. *)
Fixpoint join_out (o : list string) : string :=
  match o with
  | [] => ""
  | [e] => e
  | e :: o' => join_out o' +:+ "/" +:+ e
  end.

Definition render (rooted : bool) (o : list string) : string :=
  if rooted then "/" +:+ join_out o
  else match o with
       | [] => "."                                (* turn empty string into "." *)
       | _ => join_out o
       end.

Definition rooted (path : string) : bool :=
  match path with
  | String c _ => IsPathSeparator c
  | "" => false
  end.

(** [filepath.Clean] *)
Definition Clean (path : string) : string :=
  if decide (path = "") then "."
  else
    let r := rooted path in
    let b := foldl (clean_elem r) {| out := []; dotdot := 0 |} (elements path) in
    render r (out b).

(** [path[:i+1]] for [i] the index of the last separator of [path], which
    [Dir] finds by scanning from the end ([-1], and so the empty string,
    when there is none). *)
Fixpoint upto_last_separator (path : string) : string :=
  match path with
  | "" => ""
  | String c rest =>
      if IsPathSeparator c then String c (upto_last_separator rest)
      else match upto_last_separator rest with
           | "" => ""
           | d => String c d
           end
  end.

(** [filepath.Dir] *)
Definition Dir (path : string) : string := Clean (upto_last_separator path).

(** [filepath.Join] *)
Fixpoint Join (elem : list string) : string :=
  match elem with
  | [] => ""
  | e :: rest =>
      if decide (e = "") then Join rest
      else Clean (strings.Join elem "/")
  end.

End filepath.

(** ** Go standard library: errors and io/fs *)

Module fs.

(** Error values. [PathError] is [*fs.PathError]; the others are the
    sentinel errors of [io/fs] and [io], and [errorString] any other error
    ([errors.New]). *)
Inductive error : Type :=
| ErrInvalid
| ErrPermission
| ErrExist
| ErrNotExist
| ErrClosed
| EOF
| errorString (s : string)
| PathError (Op Path : string) (Err : error).

#[global] Instance error_eq_dec : EqDecision error.
Proof. solve_decision. Defined.

(** [errors.Is(err, target)]: [err] or an error it wraps is [target]. *)
Fixpoint errors_Is (err target : error) : bool :=
  if decide (err = target) then true
  else match err with
       | PathError _ _ e => errors_Is e target
       | _ => false
       end.

(** A Go result [(T, error)] of which the caller reads the value only
    when the error is nil. *)
Inductive result (A : Type) : Type :=
| Ok (a : A)
| Err (err : error).
Arguments Ok {A} a.
Arguments Err {A} err.

Record FileInfo := { FileInfo_Name : string; FileInfo_Size : Z; FileInfo_IsDir : bool }.

Record DirEntry := { DirEntry_Name : string; DirEntry_IsDir : bool }.

#[global] Instance DirEntry_eq_dec : EqDecision DirEntry.
Proof. solve_decision. Defined.

Section Interfaces.

(** The state of the underlying storage and of the handles it has opened.
    The wrappers have no state of their own; every call into the
    underlying layer may read and change this one. *)
Variable World : Type.

Definition io (A : Type) : Type := World -> A * World.

(** [ReadDir(n) ([]DirEntry, error)]: both components are returned. *)
Definition ReadDir_t : Type := Z -> io (list DirEntry * option error).

(** [fs.File] as the record of its methods. [File_ReadDir] is [Some]
    exactly when the dynamic type also has [ReadDir], that is when the type
    assertion [file.(fs.ReadDirFile)] succeeds. *)
Record File := {
  File_Stat : io (result FileInfo);
  File_Read : nat -> io (string * option error);
  File_Close : io (option error);
  File_ReadDir : option ReadDir_t
}.

(** [fs.ReadDirFile] *)
Record ReadDirFile := {
  Stat : io (result FileInfo);
  Read : nat -> io (string * option error);
  Close : io (option error);
  ReadDir : ReadDir_t
}.

(** The type assertion [rdf, ok := file.(fs.ReadDirFile)]. *)
Definition assert_ReadDirFile (file : File) : option ReadDirFile :=
  match File_ReadDir file with
  | Some rd =>
      Some {| Stat := File_Stat file; Read := File_Read file;
              Close := File_Close file; ReadDir := rd |}
  | None => None
  end.

(** [fs.FS] *)
Record FS := { Open : string -> io (result File) }.

End Interfaces.

Arguments File_Stat {World} _ _.
Arguments File_Read {World} _ _ _.
Arguments File_Close {World} _ _.
Arguments File_ReadDir {World} _.
Arguments Stat {World} _ _.
Arguments Read {World} _ _ _.
Arguments Close {World} _ _.
Arguments ReadDir {World} _ _ _.
Arguments assert_ReadDirFile {World} _.
Arguments Open {World} _ _ _.

End fs.

Import fs.

(** ** Code shared by the two source files *)

(** A call that returns or panics. *)
Inductive outcome (A : Type) : Type :=
| Returns (a : A)
| Panics (msg : string).
Arguments Returns {A} a.
Arguments Panics {A} msg.

Definition quote : string := String "034"%char "".

(** The loop of [pathPrefixes]: [fuel] bounds the number of iterations,
    [None] is a loop that has not returned within the bound. *)
Fixpoint pathPrefixes_loop (fuel : nat) (path : string) (pfxs : list string)
  : option (list string) :=
  match fuel with
  | O => None
  | S fuel =>
      let path := filepath.Dir path in
      let pfxs := pfxs ++ [path] in
      if decide (path = "." \/ path = "/") then Some pfxs
      else pathPrefixes_loop fuel path pfxs
  end.

(** [pathPrefixes], the same text in both files. The capacity given to
    [make] does not show in the result. Each iteration shortens the path,
    so its length bounds the loop ([pathPrefixes_loop_returns] below). *)
Definition pathPrefixes (path : string) : list string :=
  let path := filepath.Clean path in
  default [] (pathPrefixes_loop (S (String.length path)) path [path]).

(** [m[k]] on a [map[string]bool]: the zero value [false] for a missing
    key. *)
Definition map_index (m : gmap string bool) (k : string) : bool :=
  default false (m !! k).

(** The loop [for _, pfx := range pfxs { if hide(pfx) { return ... } }] of
    both [Open] methods: [true] when it returns from inside. *)
Fixpoint range_pfxs (hide : string -> bool) (pfxs : list string) : bool :=
  match pfxs with
  | [] => false
  | pfx :: rest => if hide pfx then true else range_pfxs hide rest
  end.

(** The loop [for _, de := range des { if ... { continue }; des[dst] = de;
    dst++ }] of both [ReadDir] methods, which compacts the slice in place:
    [i] is the index of the iteration, [k] the number of iterations left,
    [skip] the condition of the [continue]. *)
Fixpoint range_des (skip : DirEntry -> bool) (k i dst : nat)
    (des : list DirEntry) : nat * list DirEntry :=
  match k with
  | O => (dst, des)
  | S k =>
      match des !! i with
      | None => (dst, des)
      | Some de =>
          if skip de then range_des skip k (S i) dst des
          else range_des skip k (S i) (S dst) (<[dst := de]> des)
      end
  end.

(** What follows the loop: [des = des[:dst]]. The entries past [dst], which
    the code sets to nil, are outside the slice that is returned. The slice
    is the one the underlying [ReadDir] returned, taken here as the
    caller's own (as [os], [embed] and [fstest.MapFS] return it). *)
Definition compact (skip : DirEntry -> bool) (des : list DirEntry) : list DirEntry :=
  let '(dst, des) := range_des skip (length des) 0 0 des in
  take dst des.

(** ** filter.go *)

Module PathsFS.
Section World.
Variable World : Type.

Record excludePathsFS := {
  fsys : FS World;
  hidden : gmap string bool
}.

Record excludePathsDir := {
  path : string;
  excludePathsDir_FS : excludePathsFS;
  excludePathsDir_ReadDirFile : ReadDirFile World
}.

Definition excludePathsDir_ReadDir (f : excludePathsDir) : ReadDir_t World :=
  fun n w =>
    match ReadDir (excludePathsDir_ReadDirFile f) n w with
    | ((_, Some err), w) => (([], Some err), w)
    | ((des, None), w) =>
        let skip de :=
          map_index (hidden (excludePathsDir_FS f))
                (filepath.Join [path f; DirEntry_Name de]) in
        ((compact skip des, None), w)
    end.

(** [*excludePathsDir] as an [fs.File]: [ReadDir] is its own method, the
    others are promoted from the embedded [fs.ReadDirFile]. *)
Definition excludePathsDir_File (f : excludePathsDir) : File World :=
  {| File_Stat := Stat (excludePathsDir_ReadDirFile f);
     File_Read := Read (excludePathsDir_ReadDirFile f);
     File_Close := Close (excludePathsDir_ReadDirFile f);
     File_ReadDir := Some (excludePathsDir_ReadDir f) |}.

Definition excludePathsFS_Open (f : excludePathsFS) (name : string)
  : io World (result (File World)) :=
  fun w =>
    let pfxs := pathPrefixes name in
    if range_pfxs (map_index (hidden f)) pfxs then
      (Err (PathError "open" name ErrNotExist), w)
    else
      match Open (fsys f) name w with
      | (Err err, w) => (Err err, w)
      | (Ok file, w) =>
          match File_Stat file w with
          | (Err err, w) => (Err err, w)
          | (Ok fi, w) =>
              if FileInfo_IsDir fi then
                match assert_ReadDirFile file with
                | Some rdf =>
                    (Ok (excludePathsDir_File
                           {| path := name; excludePathsDir_FS := f;
                              excludePathsDir_ReadDirFile := rdf |}), w)
                | None => (Ok file, w)
                end
              else (Ok file, w)
          end
      end.

(** [*excludePathsFS] as an [fs.FS]. *)
Definition excludePathsFS_FS (f : excludePathsFS) : FS World :=
  {| Open := excludePathsFS_Open f |}.

(** The loop of [ExcludePaths] over [hide]. *)
Fixpoint ExcludePaths_range (hide : list string) (hidden : gmap string bool)
  : outcome (gmap string bool) :=
  match hide with
  | [] => Returns hidden
  | path :: rest =>
      if decide (path = ".") then
        Panics ("ExcludePaths: cannot hide path " +:+ quote +:+ "." +:+ quote)
      else ExcludePaths_range rest (<[path := true]> hidden)
  end.

Definition ExcludePaths (fsys : FS World) (hide : list string) : outcome (FS World) :=
  match ExcludePaths_range hide ∅ with
  | Panics msg => Panics msg
  | Returns hidden =>
      Returns (excludePathsFS_FS {| fsys := fsys; hidden := hidden |})
  end.

End World.

Arguments fsys {World} _.
Arguments hidden {World} _.
Arguments path {World} _.
Arguments excludePathsDir_FS {World} _.
Arguments excludePathsDir_ReadDirFile {World} _.
Arguments excludePathsDir_ReadDir {World} _ _ _.
Arguments excludePathsDir_File {World} _.
Arguments excludePathsFS_Open {World} _ _ _.
Arguments excludePathsFS_FS {World} _.
Arguments ExcludePaths {World} _ _.

End PathsFS.

(** ** The second source file: [ExcludeFn] *)

Module FnFS.
Section World.
Variable World : Type.

Record excludeFnFS := {
  fsys : FS World;
  hide : string -> bool
}.

Record excludeFnDir := {
  path : string;
  excludeFnDir_FS : excludeFnFS;
  excludeFnDir_ReadDirFile : ReadDirFile World
}.

Definition excludeFnDir_ReadDir (f : excludeFnDir) : ReadDir_t World :=
  fun n w =>
    match ReadDir (excludeFnDir_ReadDirFile f) n w with
    | ((_, Some err), w) => (([], Some err), w)
    | ((des, None), w) =>
        let skip de :=
          hide (excludeFnDir_FS f)
               (filepath.Clean (path f +:+ "/" +:+ DirEntry_Name de)) in
        ((compact skip des, None), w)
    end.

Definition excludeFnDir_File (f : excludeFnDir) : File World :=
  {| File_Stat := Stat (excludeFnDir_ReadDirFile f);
     File_Read := Read (excludeFnDir_ReadDirFile f);
     File_Close := Close (excludeFnDir_ReadDirFile f);
     File_ReadDir := Some (excludeFnDir_ReadDir f) |}.

Definition excludeFnFS_Open (f : excludeFnFS) (name : string)
  : io World (result (File World)) :=
  fun w =>
    let pfxs := pathPrefixes name in
    if range_pfxs (hide f) pfxs then
      (Err (PathError "open" name ErrNotExist), w)
    else
      match Open (fsys f) name w with
      | (Err err, w) => (Err err, w)
      | (Ok file, w) =>
          match File_Stat file w with
          | (Err err, w) => (Err err, w)
          | (Ok fi, w) =>
              if FileInfo_IsDir fi then
                match assert_ReadDirFile file with
                | Some rdf =>
                    (Ok (excludeFnDir_File
                           {| path := name; excludeFnDir_FS := f;
                              excludeFnDir_ReadDirFile := rdf |}), w)
                | None => (Ok file, w)
                end
              else (Ok file, w)
          end
      end.

Definition excludeFnFS_FS (f : excludeFnFS) : FS World :=
  {| Open := excludeFnFS_Open f |}.

Definition ExcludeFn (fsys : FS World) (hide : string -> bool) : outcome (FS World) :=
  if hide "." then
    Panics ("ExcludeFn: cannot hide path " +:+ quote +:+ "." +:+ quote)
  else Returns (excludeFnFS_FS {| fsys := fsys; hide := hide |}).

Fixpoint ExcludePaths_range (hide : list string) (hidden : gmap string bool)
  : outcome (gmap string bool) :=
  match hide with
  | [] => Returns hidden
  | path :: rest =>
      if decide (path = ".") then
        Panics ("ExcludePaths: cannot hide path " +:+ quote +:+ "." +:+ quote)
      else ExcludePaths_range rest (<[path := true]> hidden)
  end.

Definition ExcludePaths (fsys : FS World) (hide : list string) : outcome (FS World) :=
  match ExcludePaths_range hide ∅ with
  | Panics msg => Panics msg
  | Returns hidden => ExcludeFn fsys (fun s => map_index hidden s)
  end.

End World.

Arguments fsys {World} _.
Arguments hide {World} _ _.
Arguments path {World} _.
Arguments excludeFnDir_FS {World} _.
Arguments excludeFnDir_ReadDirFile {World} _.
Arguments excludeFnDir_ReadDir {World} _ _ _.
Arguments excludeFnDir_File {World} _.
Arguments excludeFnFS_Open {World} _ _ _.
Arguments excludeFnFS_FS {World} _.
Arguments ExcludeFn {World} _ _.
Arguments ExcludePaths {World} _ _.

End FnFS.

(** ** Concrete filesystems *)

(** An in-memory tree in the manner of [testing/fstest.MapFS], which does
    not check that a name is a valid path. *)
Module MemFS.

Inductive node : Type :=
| file (data : string)
| dir (entries : list DirEntry).

(** The read offset of every directory handle opened so far, by handle. *)
Definition World : Type := list nat.

Definition dir_ReadDir (entries : list DirEntry) (h : nat) : ReadDir_t World :=
  fun n w =>
    let off := default 0 (w !! h) in
    let rest := drop off entries in
    if decide (0 < n)%Z then
      match take (Z.to_nat n) rest with
      | [] => (([], Some EOF), w)
      | batch => ((batch, None), <[h := off + length batch]> w)
      end
    else ((rest, None), <[h := length entries]> w).

Definition handle (name : string) (nd : node) (h : nat) : File World :=
  match nd with
  | file data =>
      {| File_Stat := fun w =>
           (Ok {| FileInfo_Name := name;
                  FileInfo_Size := Z.of_nat (String.length data);
                  FileInfo_IsDir := false |}, w);
         File_Read := fun n w => ((data, Some EOF), w);
         File_Close := fun w => (None, w);
         File_ReadDir := None |}
  | dir entries =>
      {| File_Stat := fun w =>
           (Ok {| FileInfo_Name := name; FileInfo_Size := 0;
                  FileInfo_IsDir := true |}, w);
         File_Read := fun n w => (("", Some (PathError "read" name ErrInvalid)), w);
         File_Close := fun w => (None, w);
         File_ReadDir := Some (dir_ReadDir entries h) |}
  end.

Definition tree_Open (tree : gmap string node) (name : string)
  : io World (result (File World)) :=
  fun w =>
    match tree !! name with
    | None => (Err (PathError "open" name ErrNotExist), w)
    | Some nd => (Ok (handle name nd (length w)), w ++ [0])
    end.

Definition FS (tree : gmap string node) : fs.FS World := {| Open := tree_Open tree |}.

Definition f (name : string) : DirEntry :=
  {| DirEntry_Name := name; DirEntry_IsDir := false |}.
Definition d (name : string) : DirEntry :=
  {| DirEntry_Name := name; DirEntry_IsDir := true |}.

(** The tree of [TestExcludePaths]. *)
Definition test_tree : gmap string node :=
  list_to_map
    [ (".", dir [f "a"; d "b"; f "d"; d "e"; d "g"]);
      ("a", file "a");
      ("b", dir [f "c"]); ("b/c", file "");
      ("d", file "d");
      ("e", dir [f "f"]); ("e/f", file "f");
      ("g", dir [d "h"]); ("g/h", dir [f "i"]); ("g/h/i", file "i") ].

(** The handle that [Open] of the test tree returns for ["."] when it is
    the first one opened, as an [fs.ReadDirFile]. *)
Definition test_root : ReadDirFile World :=
  let h := handle "." (dir [f "a"; d "b"; f "d"; d "e"; d "g"]) 0 in
  {| Stat := File_Stat h; Read := File_Read h; Close := File_Close h;
     ReadDir := dir_ReadDir [f "a"; d "b"; f "d"; d "e"; d "g"] 0 |}.

(** A tree whose root directory is also served under the empty name. *)
Definition empty_name_tree : gmap string node :=
  list_to_map [ ("", dir [f "a"]); (".", dir [f "a"]); ("a", file "a") ].

End MemFS.

(** A filesystem with one directory, served under every name, that fails:
    [Stat] succeeds on the first call only, and [ReadDir] returns the entry
    it has read together with an error. *)
Module FaultyFS.

(** The number of [Stat] calls so far. *)
Definition World : Type := nat.

Definition entry : DirEntry := {| DirEntry_Name := "a"; DirEntry_IsDir := false |}.

Definition ioerr : error := errorString "input/output error".

Definition dir : ReadDirFile World :=
  {| Stat := fun w =>
       (match w with
        | O => Ok {| FileInfo_Name := "d"; FileInfo_Size := 0; FileInfo_IsDir := true |}
        | S _ => Err ErrPermission
        end, S w);
     Read := fun n w => (("", Some ErrInvalid), w);
     Close := fun w => (None, w);
     ReadDir := fun n w => (([entry], Some ioerr), w) |}.

Definition handle : File World :=
  {| File_Stat := Stat dir; File_Read := Read dir; File_Close := Close dir;
     File_ReadDir := Some (ReadDir dir) |}.

Definition FS : fs.FS World := {| Open := fun name w => (Ok handle, w) |}.

End FaultyFS.

(** ** Vocabulary of the statements *)

Section Vocabulary.
Context {World : Type}.

(** The results of a sequence of [ReadDir] calls, and the state after it. *)
Fixpoint ReadDir_calls (rd : ReadDir_t World) (ns : list Z) (w : World)
  : list (list DirEntry * option error) * World :=
  match ns with
  | [] => ([], w)
  | n :: ns =>
      let '(r, w) := rd n w in
      let '(rs, w) := ReadDir_calls rd ns w in
      (r :: rs, w)
  end.

(** Two listings that cannot be told apart by any sequence of calls. *)
Definition ReadDir_same (a b : ReadDir_t World) : Prop :=
  forall ns w, ReadDir_calls a ns w = ReadDir_calls b ns w.

(** Two handles with the same [Stat], [Read] and [Close], both with or both
    without [ReadDir], their listings related by [R]. *)
Definition File_rel (R : ReadDir_t World -> ReadDir_t World -> Prop)
    (f g : File World) : Prop :=
  (forall w, File_Stat f w = File_Stat g w) /\
  (forall n w, File_Read f n w = File_Read g n w) /\
  (forall w, File_Close f w = File_Close g w) /\
  match File_ReadDir f, File_ReadDir g with
  | Some a, Some b => R a b
  | None, None => True
  | _, _ => False
  end.

(** Two results of [Open]: the same state, and the same error or related
    handles. *)
Definition Open_rel (R : ReadDir_t World -> ReadDir_t World -> Prop)
    (x y : result (File World) * World) : Prop :=
  x.2 = y.2 /\
  match x.1, y.1 with
  | Ok f, Ok g => File_rel R f g
  | Err e1, Err e2 => e1 = e2
  | _, _ => False
  end.

(** [Open] then one [ReadDir(n)] on the handle: the entries and the error,
    [None] when there is no listing to call. *)
Definition Open_ReadDir (fsys : FS World) (name : string) (n : Z) (w : World)
  : option (list DirEntry * option error) :=
  match Open fsys name w with
  | (Ok file, w) =>
      match File_ReadDir file with
      | Some rd => Some (rd n w).1
      | None => None
      end
  | (Err _, _) => None
  end.

(** The error of [Open], [None] when it returned a handle. *)
Definition Open_error (fsys : FS World) (name : string) (w : World)
  : option error :=
  match Open fsys name w with
  | (Ok _, _) => None
  | (Err err, _) => Some err
  end.

(** [Open] then one [Read] on the handle: the bytes read. *)
Definition Open_Read (fsys : FS World) (name : string) (n : nat) (w : World)
  : option string :=
  match Open fsys name w with
  | (Ok file, w) => Some (File_Read file n w).1.1
  | (Err _, _) => None
  end.

(** The handle's [Stat], asked again right after it succeeded, answers the
    same about [IsDir] and leaves the state as it is. *)
Definition Stat_repeats (fsys : FS World) (name : string) (w : World) : Prop :=
  forall file w1 fi w2,
    Open fsys name w = (Ok file, w1) ->
    File_Stat file w1 = (Ok fi, w2) ->
    exists fi', File_Stat file w2 = (Ok fi', w2) /\
                FileInfo_IsDir fi' = FileInfo_IsDir fi.

End Vocabulary.

(** What a constructor returned; a constructor that panicked returned
    nothing. *)
Definition returned {A : Type} (o : outcome A) : option A :=
  match o with
  | Returns a => Some a
  | Panics _ => None
  end.

(** ** Vocabulary of the theory of [Clean] and [pathPrefixes] *)

Import filepath.

(** [e] holds no separator. *)
Definition no_sep (e : string) : Prop := elements e = [e].

(** A real path element: what the default case of [Clean] copies. *)
Definition is_name (e : string) : Prop :=
  e <> "" /\ e <> "." /\ e <> ".." /\ no_sep e.

#[global] Instance no_sep_dec e : Decision (no_sep e).
Proof. unfold no_sep. apply _. Defined.

#[global] Instance is_name_dec e : Decision (is_name e).
Proof. unfold is_name. apply _. Defined.

(** An element of a cleaned path: a name or [..]. *)
Definition is_elem (e : string) : Prop := e <> "" /\ no_sep e.

(** The shape of the buffer: names on top of [k] elements [..], none of
    them when the path is rooted. *)
Definition wf_out (r : bool) (o : list string) : Prop :=
  exists names k,
    o = names ++ replicate k ".." /\ Forall is_name names /\ (r = true -> k = 0).

Definition wf_buf (r : bool) (b : lazybuf) : Prop :=
  exists names,
    out b = names ++ replicate (dotdot b) ".." /\ Forall is_name names /\
    (r = true -> dotdot b = 0).

Definition empty_buf : lazybuf := {| out := []; dotdot := 0 |}.

(** The buffer [Clean] ends with. *)
Definition Clean_buf (path : string) : lazybuf :=
  foldl (clean_elem (rooted path)) empty_buf (elements path).

(** What the loop appends, from the buffer of the cleaned path: the
    renderings of the shorter and shorter buffers, down to the empty one. *)
Fixpoint dirs (r : bool) (o : list string) : list string :=
  match o with
  | [] => [render r []]
  | _ :: o' =>
      match o' with
      | [] => [render r []]
      | _ => render r o' :: dirs r o'
      end
  end.

(** [nest p [x1; ...; xn]] is [p/x1/.../xn]. *)
Definition nest (p : string) (xs : list string) : string :=
  foldl (fun p x => p +:+ "/" +:+ x) p xs.

(** The rest of [Open], after the loop over the prefixes. *)
Definition Open_rest {World} (fsys : FS World) (name : string)
    (wrap : ReadDirFile World -> File World) : io World (result (File World)) :=
  fun w =>
    match Open fsys name w with
    | (Err err, w) => (Err err, w)
    | (Ok file, w) =>
        match File_Stat file w with
        | (Err err, w) => (Err err, w)
        | (Ok fi, w) =>
            if FileInfo_IsDir fi then
              match assert_ReadDirFile file with
              | Some rdf => (Ok (wrap rdf), w)
              | None => (Ok file, w)
              end
            else (Ok file, w)
        end
    end.

(** The decorator each [Open] builds around a directory opened under
    [name]. *)
Definition FnFS_decorate {World} (f : FnFS.excludeFnFS World) (name : string)
    (rdf : ReadDirFile World) : File World :=
  FnFS.excludeFnDir_File
    {| FnFS.path := name; FnFS.excludeFnDir_FS := f;
       FnFS.excludeFnDir_ReadDirFile := rdf |}.

Definition PathsFS_decorate {World} (f : PathsFS.excludePathsFS World)
    (name : string) (rdf : ReadDirFile World) : File World :=
  PathsFS.excludePathsDir_File
    {| PathsFS.path := name; PathsFS.excludePathsDir_FS := f;
       PathsFS.excludePathsDir_ReadDirFile := rdf |}.

(** The condition of the [continue] in each [ReadDir], for an entry of the
    directory opened under [name]. *)
Definition FnFS_skip {World} (f : FnFS.excludeFnFS World) (name : string)
    (de : DirEntry) : bool :=
  FnFS.hide f (filepath.Clean (name +:+ "/" +:+ DirEntry_Name de)).

Definition PathsFS_skip {World} (f : PathsFS.excludePathsFS World)
    (name : string) (de : DirEntry) : bool :=
  map_index (PathsFS.hidden f) (filepath.Join [name; DirEntry_Name de]).

(** One result of the underlying [ReadDir] as the wrapper passes it on:
    with an error, no entry; without, the entries that are not skipped. *)
Definition passed_on (skip : DirEntry -> bool)
    (r : list DirEntry * option error) : list DirEntry * option error :=
  match r with
  | (_, Some err) => ([], Some err)
  | (des, None) => (filter (fun de => skip de = false) des, None)
  end.

(** ** The slice of [ReadDir] in memory *)

(** [outcome] as an error monad: a panic ends the call. *)
#[global] Instance outcome_bind : MBind outcome := fun A B f o =>
  match o with
  | Returns a => f a
  | Panics msg => Panics msg
  end.

(** Both [ReadDir] methods write into the slice that the underlying
    [ReadDir] returned. Here the slice is what Go has: a window on cells
    of memory, which the underlying handle can read and write as well. *)
Module Slices.

(** An element of a [[]fs.DirEntry]: an interface value, [None] for nil. *)
Definition elem : Type := option DirEntry.

(** The cells by address; a cell that was never written holds nil. *)
Abbreviation Memory := (gmap nat elem).

Definition load (m : Memory) (a : nat) : elem := default None (m !! a).

(** A slice: [len] cells from the address [ptr] on. The capacity, which is
    not less than the length, is left out: the code does not append. *)
Record slice := { ptr : nat; len : nat }.

(** The nil slice. *)
Definition nil : slice := {| ptr := 0; len := 0 |}.

(** What a caller reads in [s]. *)
Definition contents (m : Memory) (s : slice) : list elem :=
  map (fun i => load m (ptr s + i)) (seq 0 (len s)).

(** The panic of a method call on a nil interface value. *)
Definition nil_dereference : string :=
  "runtime error: invalid memory address or nil pointer dereference".

(** [s[i] = v], with its bounds check. *)
Definition assign (s : slice) (i : nat) (v : elem) (m : Memory) : outcome Memory :=
  if decide (i < len s) then Returns (<[ptr s + i := v]> m)
  else Panics ("runtime error: index out of range [" +:+ pretty i
               +:+ "] with length " +:+ pretty (len s)).

(** [s[i:]], with its bounds check. *)
Definition from (s : slice) (i : nat) : outcome slice :=
  if decide (i <= len s) then Returns {| ptr := ptr s + i; len := len s - i |}
  else Panics ("runtime error: slice bounds out of range [" +:+ pretty i
               +:+ ":" +:+ pretty (len s) +:+ "]").

(** [s[:i]] for [i <= len(s)], which is within the capacity. *)
Definition upto (s : slice) (i : nat) : slice := {| ptr := ptr s; len := i |}.

(** The loop [for _, de := range des { if ... { continue }; des[dst] = de;
    dst++ }]: the length is taken once, the element [i] is read from memory
    at the iteration [i], [k] iterations are left. [de.Name()], which the
    condition [skip] starts with, panics on nil. *)
Fixpoint range_des (skip : DirEntry -> bool) (des : slice) (k i dst : nat)
    (m : Memory) : outcome (nat * Memory) :=
  match k with
  | O => Returns (dst, m)
  | S k =>
      match load m (ptr des + i) with
      | None => Panics nil_dereference
      | Some de =>
          if skip de then range_des skip des k (S i) dst m
          else
            m ← assign des dst (Some de) m;
            range_des skip des k (S i) (S dst) m
      end
  end.

(** The loop [for i := range tail { tail[i] = nil }]. *)
Fixpoint range_tail (tail : slice) (k i : nat) (m : Memory) : outcome Memory :=
  match k with
  | O => Returns m
  | S k => m ← assign tail i None m; range_tail tail k (S i) m
  end.

(** The text that both [ReadDir] methods share, from [var dst int] to the
    slice they return. *)
Definition compact (skip : DirEntry -> bool) (des : slice) (m : Memory)
  : outcome (slice * Memory) :=
  '(dst, m) ← range_des skip des (len des) 0 0 m;
  tail ← from des dst;
  let des := upto des dst in
  m ← range_tail tail (len tail) 0 m;
  Returns (des, m).

Section World.

(** The state of the underlying handle apart from the memory. *)
Variable State : Type.

Definition World : Type := Memory * State.

(** [ReadDir] of the underlying handle. *)
Definition ReadDir_t : Type := Z -> World -> (slice * option error) * World.

(** [excludeFnDir.ReadDir], from the fields it reads: [f.path],
    [f.hide] and [f.ReadDirFile.ReadDir]. *)
Definition excludeFnDir_ReadDir (path : string) (hide : string -> bool)
    (rd : ReadDir_t) (n : Z) (w : World)
  : outcome ((slice * option error) * World) :=
  match rd n w with
  | ((_, Some err), w) => Returns ((nil, Some err), w)
  | ((des, None), (m, s)) =>
      let skip de := hide (filepath.Clean (path +:+ "/" +:+ DirEntry_Name de)) in
      '(des, m) ← compact skip des m;
      Returns ((des, None), (m, s))
  end.

(** [excludePathsDir.ReadDir], from [f.path], [f.hidden] and
    [f.ReadDirFile.ReadDir]. *)
Definition excludePathsDir_ReadDir (path : string) (hidden : gmap string bool)
    (rd : ReadDir_t) (n : Z) (w : World)
  : outcome ((slice * option error) * World) :=
  match rd n w with
  | ((_, Some err), w) => Returns ((nil, Some err), w)
  | ((des, None), (m, s)) =>
      let skip de := map_index hidden (filepath.Join [path; DirEntry_Name de]) in
      '(des, m) ← compact skip des m;
      Returns ((des, None), (m, s))
  end.

(** A sequence of calls: what the caller reads in each slice when the call
    returns, with the error, and the state after the last call; the panic
    of the first call that panics. *)
Fixpoint ReadDir_calls
    (rd : Z -> World -> outcome ((slice * option error) * World))
    (ns : list Z) (w : World)
  : outcome (list (list elem * option error) * World) :=
  match ns with
  | [] => Returns ([], w)
  | n :: ns =>
      '((des, err), w) ← rd n w;
      '(rs, w') ← ReadDir_calls rd ns w;
      Returns ((contents w.1 des, err) :: rs, w')
  end.

(** The underlying handle hands its slices over: the entries, the error
    and the state of its own that a call returns are those of [rd], whatever
    memory holds, and so whatever a caller wrote into a slice of an earlier
    call. *)
Definition hands_over (rd_s : ReadDir_t) (rd : fs.ReadDir_t State) : Prop :=
  forall n m s, exists des m',
    rd_s n (m, s) = ((des, (rd n s).1.2), (m', (rd n s).2)) /\
    contents m' des = map Some (rd n s).1.1.

(** The first address past every cell that has been written. *)
Definition top (m : Memory) : nat := map_fold (fun a _ t => max (S a) t) 1 m.

Fixpoint store (a : nat) (es : list elem) (m : Memory) : Memory :=
  match es with
  | [] => m
  | e :: es => store (S a) es (<[a := e]> m)
  end.

(** A handle that returns every batch of [rd] in an array of its own, as
    [make] gives it to [fstest.MapFS]. *)
Definition allocating (rd : fs.ReadDir_t State) : ReadDir_t :=
  fun n '(m, s) =>
    let '((des, err), s) := rd n s in
    (({| ptr := top m; len := length des |}, err),
     (store (top m) (map Some des) m, s)).

(** A handle that keeps the array of its listing and returns it whole at
    every call. *)
Definition keeping (des : slice) : ReadDir_t := fun n w => ((des, None), w).

End World.

Arguments ReadDir_t _ : clear implicits.
Arguments excludeFnDir_ReadDir {State} _ _ _ _ _.
Arguments excludePathsDir_ReadDir {State} _ _ _ _ _.
Arguments ReadDir_calls {State} _ _ _.
Arguments hands_over {State} _ _.
Arguments allocating {State} _ _ _.
Arguments keeping {State} _ _ _.

End Slices.

(** One result as the caller of the wrapper reads it in memory. *)
Definition seen (r : list DirEntry * option error)
  : list Slices.elem * option error := (map Some r.1, r.2).

(** * Theory *)

(** ** The model of [path/filepath] against Go's tests *)

(** The models on rows of the tables of Go's own tests of [Clean] and
    [Dir] (path_test.go), and [Join] on an empty first element. *)
Example Clean_conformance :
  map filepath.Clean
    [ "abc"; "abc/def"; "a/b/c"; "."; ".."; "../.."; "../../abc"; "/abc"; "/";
      ""; "abc/"; "abc/def/"; "a/b/c/"; "./"; "../"; "../../"; "/abc/";
      "abc//def//ghi"; "abc//"; "abc/./def"; "/./abc/def"; "abc/.";
      "abc/def/ghi/../jkl"; "abc/def/../ghi/../jkl"; "abc/def/..";
      "abc/def/../.."; "/abc/def/../.."; "abc/def/../../..";
      "/abc/def/../../.."; "abc/def/../../../ghi/jkl/../../../mno";
      "/../abc"; "abc/./../def"; "abc//./../def"; "abc/../../././../def" ]
  = [ "abc"; "abc/def"; "a/b/c"; "."; ".."; "../.."; "../../abc"; "/abc"; "/";
      "."; "abc"; "abc/def"; "a/b/c"; "."; ".."; "../.."; "/abc";
      "abc/def/ghi"; "abc"; "abc/def"; "/abc/def"; "abc";
      "abc/def/jkl"; "abc/jkl"; "abc";
      "."; "/"; "..";
      "/"; "../../mno";
      "/abc"; "def"; "def"; "../../def" ].
Proof. reflexivity. Qed.

Example Dir_conformance :
  map filepath.Dir
    [ ""; "."; "/."; "/"; "/foo"; "x/"; "abc"; "abc/def"; "a/b/.x"; "a/b/c.";
      "a/b/c.x" ]
  = [ "."; "."; "/"; "/"; "/"; "x"; "."; "abc"; "a/b"; "a/b"; "a/b" ].
Proof. reflexivity. Qed.

Example Join_conformance :
  map filepath.Join
    [ []; [""]; ["a"]; ["a"; "b"]; ["a"; ""]; [""; "b"]; ["/"; "a"]; ["a/"; "b"];
      ["."; "b"]; [""; ""] ]
  = [ ""; ""; "a"; "a/b"; "a"; "b"; "/a"; "a/b"; "b"; "" ].
Proof. reflexivity. Qed.


(** ** Strings *)

Lemma string_app_cons c s t : String c s +:+ t = String c (s +:+ t).
Proof. reflexivity. Qed.

Lemma string_app_nil_l s : "" +:+ s = s.
Proof. reflexivity. Qed.

Lemma string_app_nil_r s : s +:+ "" = s.
Proof. induction s as [|c s IH]; [done|]. by rewrite string_app_cons, IH. Qed.

Lemma string_app_assoc s t u : (s +:+ t) +:+ u = s +:+ (t +:+ u).
Proof. induction s as [|c s IH]; [done|]. by rewrite !string_app_cons, IH. Qed.

Lemma string_length_app s t :
  String.length (s +:+ t) = String.length s + String.length t.
Proof. induction s as [|c s IH]; [done|]. rewrite string_app_cons. simpl. by rewrite IH. Qed.

Lemma string_app_eq_nil s t : s +:+ t = "" -> s = "" /\ t = "".
Proof. destruct s; [done|]. by rewrite string_app_cons. Qed.

(** ** Path elements *)

Lemma elements_nonempty path : elements path <> [].
Proof.
  destruct path as [|c rest]; simpl; [done|].
  destruct (IsPathSeparator c); [done|]. by destruct (elements rest).
Qed.

Lemma elements_cons_sep c rest :
  IsPathSeparator c = true -> elements (String c rest) = "" :: elements rest.
Proof. intros H. simpl. by rewrite H. Qed.

Lemma elements_cons_nosep c rest e es :
  IsPathSeparator c = false -> elements rest = e :: es ->
  elements (String c rest) = String c e :: es.
Proof. intros H1 H2. simpl. by rewrite H1, H2. Qed.

Lemma no_sep_nil : no_sep "".
Proof. done. Qed.

Lemma no_sep_cons c e :
  no_sep (String c e) <-> IsPathSeparator c = false /\ no_sep e.
Proof.
  unfold no_sep. simpl. destruct (IsPathSeparator c) eqn:Hc.
  - split; [discriminate|intros [? _]; discriminate].
  - destruct (elements e) as [|e' es] eqn:He.
    + destruct (elements_nonempty _ He).
    + split.
      * intros H. split; [done|]. congruence.
      * intros [_ H]. congruence.
Qed.

Lemma elements_no_sep path : Forall no_sep (elements path).
Proof.
  induction path as [|c rest IH]; simpl.
  - by constructor.
  - destruct (IsPathSeparator c) eqn:Hc.
    + by constructor.
    + destruct (elements rest) as [|e es]; [repeat constructor; by apply no_sep_cons|].
      inversion IH; subst. constructor; [|done]. by apply no_sep_cons.
Qed.

(** Appending a separator and an element without separator adds that
    element. *)
Lemma elements_app_sep s x :
  no_sep x -> elements (s +:+ "/" +:+ x) = elements s ++ [x].
Proof.
  intros Hx. induction s as [|c s IH].
  - rewrite string_app_nil_l. rewrite string_app_cons.
    rewrite elements_cons_sep by done. by rewrite string_app_nil_l, Hx.
  - rewrite string_app_cons. simpl. rewrite IH.
    destruct (IsPathSeparator c); [done|].
    destruct (elements s) as [|e es] eqn:He; [destruct (elements_nonempty _ He)|done].
Qed.

Lemma elements_app_sep_nil s : elements (s +:+ "/") = elements s ++ [""].
Proof.
  rewrite <-(string_app_nil_r "/"). by apply (elements_app_sep s "").
Qed.

(** ** The buffer of [Clean] *)

Lemma Clean_render path : Clean path = render (rooted path) (out (Clean_buf path)).
Proof. unfold Clean. by case_decide; subst. Qed.

Lemma is_name_elem e : is_name e -> is_elem e.
Proof. unfold is_name, is_elem. tauto. Qed.

Lemma dotdot_elem : is_elem "..".
Proof. done. Qed.

Lemma wf_buf_out r b : wf_buf r b -> wf_out r (out b).
Proof. intros (names & ? & ? & ?). by exists names, (dotdot b). Qed.

Lemma wf_out_elems r o : wf_out r o -> Forall is_elem o.
Proof.
  intros (names & k & -> & Hn & _). apply Forall_app. split.
  - eapply Forall_impl; [done|]. apply is_name_elem.
  - apply Forall_replicate. apply dotdot_elem.
Qed.

Lemma wf_out_tail r o : wf_out r o -> wf_out r (tail o).
Proof.
  intros (names & k & -> & Hn & Hr). destruct names as [|n names]; simpl.
  - destruct k as [|k]; simpl.
    + by exists [], 0.
    + exists [], k. split_and!; [done|done|]. intros ->. by specialize (Hr eq_refl).
  - exists names, k. inversion Hn; subst. done.
Qed.

Lemma wf_out_cons r o x : is_name x -> wf_out r o -> wf_out r (x :: o).
Proof.
  intros Hx (names & k & -> & Hn & Hr). exists (x :: names), k.
  split_and!; [done| by constructor |done].
Qed.

Lemma wf_out_nil r : wf_out r [].
Proof. by exists [], 0. Qed.

Lemma clean_elem_empty r b : clean_elem r b "" = b.
Proof. done. Qed.

Lemma clean_elem_name r b x :
  is_name x -> clean_elem r b x = {| out := x :: out b; dotdot := dotdot b |}.
Proof.
  intros (? & ? & ? & _). unfold clean_elem. by repeat case_decide.
Qed.

Lemma clean_elem_wf r b e : wf_buf r b -> no_sep e -> wf_buf r (clean_elem r b e).
Proof.
  intros (names & Ho & Hn & Hr) He. unfold clean_elem.
  case_decide; [by exists names|].
  case_decide; [by exists names|].
  case_decide.
  - case_decide as Hlt.
    + rewrite Ho, length_app, length_replicate in Hlt.
      destruct names as [|n names]; simpl in Hlt; [lia|].
      exists names. simpl. rewrite Ho. inversion Hn; subst. done.
    + destruct r; simpl; [by exists names|].
      rewrite Ho, length_app, length_replicate in Hlt.
      destruct names; simpl in Hlt; [|lia].
      exists []. simpl. rewrite Ho. simpl. rewrite length_replicate. done.
  - exists (e :: names). simpl. rewrite Ho. split_and!; [done| |done].
    constructor; [|done]. done.
Qed.

Lemma Clean_buf_wf path : wf_buf (rooted path) (Clean_buf path).
Proof.
  unfold Clean_buf. generalize (elements_no_sep path).
  assert (wf_buf (rooted path) empty_buf) as Hb by (by exists []).
  revert Hb. generalize empty_buf. generalize (rooted path).
  induction (elements path) as [|e es IH]; intros r b Hb Hes; simpl; [done|].
  inversion Hes; subst. apply IH; [|done]. by apply clean_elem_wf.
Qed.

(** Every result of [Clean] is the rendering of a well-shaped buffer. *)
Lemma Clean_wf path : wf_out (rooted path) (out (Clean_buf path)).
Proof. apply wf_buf_out, Clean_buf_wf. Qed.

(** ** Rendering a buffer and reading it back *)

Lemma foldl_clean_names r names b :
  Forall is_name names ->
  foldl (clean_elem r) b (reverse names)
  = {| out := names ++ out b; dotdot := dotdot b |}.
Proof.
  induction names as [|n names IH]; intros Hn; simpl.
  - by destruct b.
  - inversion Hn; subst. rewrite reverse_cons, foldl_app, IH by done.
    simpl. by rewrite clean_elem_name.
Qed.

Lemma foldl_clean_dotdots k j :
  foldl (clean_elem false) {| out := replicate j ".."; dotdot := j |}
        (replicate k "..")
  = {| out := replicate (k + j) ".."; dotdot := k + j |}.
Proof.
  revert j. induction k as [|k IH]; intros j; simpl; [done|].
  unfold clean_elem at 2. simpl. rewrite length_replicate.
  case_decide; [lia|]. change (".." :: replicate j "..") with (replicate (S j) "..").
  rewrite IH. by replace (k + S j) with (S (k + j)) by lia.
Qed.

(** Cleaning the elements of a well-shaped buffer gives the buffer back. *)
Lemma foldl_clean_wf r o :
  wf_out r o -> out (foldl (clean_elem r) empty_buf (reverse o)) = o.
Proof.
  intros (names & k & -> & Hn & Hr).
  rewrite reverse_app, reverse_replicate, foldl_app.
  destruct r.
  - rewrite (Hr eq_refl). simpl. rewrite foldl_clean_names by done. done.
  - pose proof (foldl_clean_dotdots k 0) as Hk. simpl in Hk.
    unfold empty_buf. rewrite Hk, foldl_clean_names by done. simpl.
    by rewrite Nat.add_0_r.
Qed.

Lemma elements_join_out o :
  Forall is_elem o -> o <> [] -> elements (join_out o) = reverse o.
Proof.
  induction o as [|e o IH]; intros Ho Hne; [done|].
  inversion Ho as [|? ? [_ He] Ho']; subst.
  destruct o as [|e' o].
  - simpl. exact He.
  - change (join_out (e :: e' :: o)) with (join_out (e' :: o) +:+ "/" +:+ e).
    rewrite elements_app_sep by done. rewrite IH by done.
    by rewrite (reverse_cons (e' :: o)).
Qed.

(** A rendered buffer that is not empty starts with a byte of its oldest
    element. *)
Lemma join_out_head o :
  Forall is_elem o -> o <> [] ->
  exists c s, join_out o = String c s /\ IsPathSeparator c = false.
Proof.
  induction o as [|e o IH]; intros Ho Hne; [done|].
  inversion Ho as [|? ? [He1 He2] Ho']; subst.
  destruct o as [|e' o].
  - simpl. destruct e as [|c s]; [done|]. exists c, s.
    apply no_sep_cons in He2 as [Hc _]. eauto.
  - destruct IH as (c & s & Hj & Hc); [done..|].
    change (join_out (e :: e' :: o)) with (join_out (e' :: o) +:+ "/" +:+ e).
    rewrite Hj, string_app_cons. eauto.
Qed.

Lemma render_rooted r o : wf_out r o -> rooted (render r o) = r.
Proof.
  intros Ho. destruct r; [done|]. simpl.
  destruct o as [|e o]; [done|].
  destruct (join_out_head (e :: o)) as (c & s & -> & Hc);
    [by eapply wf_out_elems|done|done].
Qed.

Lemma render_nonempty r o : wf_out r o -> render r o <> "".
Proof.
  intros Ho. destruct r; [done|]. simpl.
  destruct o as [|e o]; [done|].
  destruct (join_out_head (e :: o)) as (c & s & -> & Hc);
    [by eapply wf_out_elems|done|done].
Qed.

Lemma Clean_buf_render r o : wf_out r o -> out (Clean_buf (render r o)) = o.
Proof.
  intros Ho. unfold Clean_buf. rewrite render_rooted by done.
  pose proof (wf_out_elems _ _ Ho) as He.
  destruct r; unfold render.
  - rewrite string_app_cons, string_app_nil_l.
    rewrite elements_cons_sep by done. simpl.
    destruct o as [|e o]; [done|].
    rewrite elements_join_out by done. by apply foldl_clean_wf.
  - destruct o as [|e o]; [done|].
    rewrite elements_join_out by done. by apply foldl_clean_wf.
Qed.

(** [Clean] leaves a cleaned path as it is. *)
Lemma Clean_rendered r o : wf_out r o -> Clean (render r o) = render r o.
Proof.
  intros Ho. by rewrite Clean_render, render_rooted, Clean_buf_render.
Qed.

Lemma Clean_idempotent path : Clean (Clean path) = Clean path.
Proof. rewrite (Clean_render path). apply Clean_rendered, Clean_wf. Qed.

(** ** [Dir] on a cleaned path *)

Lemma upto_last_separator_no_sep e : no_sep e -> upto_last_separator e = "".
Proof.
  induction e as [|c e IH]; intros He; [done|].
  apply no_sep_cons in He as [Hc He]. simpl. by rewrite Hc, IH.
Qed.

Lemma upto_last_separator_app s e :
  no_sep e -> upto_last_separator (s +:+ "/" +:+ e) = s +:+ "/".
Proof.
  intros He. induction s as [|c s IH].
  - rewrite !string_app_nil_l, string_app_cons. simpl.
    by rewrite upto_last_separator_no_sep.
  - rewrite (string_app_cons c s), (string_app_cons c s "/"). simpl. rewrite IH.
    destruct (IsPathSeparator c); [done|].
    destruct (s +:+ "/") eqn:Hs; [|done].
    by apply string_app_eq_nil in Hs as [_ ?].
Qed.

Lemma rooted_app s t : s <> "" -> rooted (s +:+ t) = rooted s.
Proof. by destruct s. Qed.

(** A trailing separator does not change the cleaned path. *)
Lemma Clean_buf_app_sep s : s <> "" -> Clean_buf (s +:+ "/") = Clean_buf s.
Proof.
  intros Hs. unfold Clean_buf.
  rewrite rooted_app, elements_app_sep_nil, foldl_app by done. done.
Qed.

Lemma Clean_app_sep s : s <> "" -> Clean (s +:+ "/") = Clean s.
Proof.
  intros Hs. by rewrite !Clean_render, Clean_buf_app_sep, rooted_app.
Qed.

Lemma render_cons r e o :
  o <> [] -> render r (e :: o) = render r o +:+ "/" +:+ e.
Proof.
  intros Ho. destruct o as [|e' o]; [done|].
  destruct r; unfold render.
  - change (join_out (e :: e' :: o)) with (join_out (e' :: o) +:+ "/" +:+ e).
    by rewrite string_app_assoc.
  - done.
Qed.

(** [Dir] removes the most recent element of the buffer. *)
Lemma Dir_render r o : wf_out r o -> Dir (render r o) = render r (tail o).
Proof.
  intros Ho. unfold Dir. destruct o as [|e o].
  - by destruct r.
  - pose proof (wf_out_elems _ _ Ho) as He.
    inversion He as [|? ? [_ He1] _]; subst.
    apply wf_out_tail in Ho. simpl in Ho. simpl tail.
    destruct o as [|e' o].
    + destruct r; unfold render; simpl join_out.
      * rewrite string_app_cons, string_app_nil_l. simpl.
        by rewrite upto_last_separator_no_sep.
      * by rewrite upto_last_separator_no_sep.
    + rewrite render_cons by done.
      rewrite upto_last_separator_app by done.
      rewrite Clean_app_sep by (by apply render_nonempty).
      by apply Clean_rendered.
Qed.

Lemma join_out_length o : Forall is_elem o -> length o <= String.length (join_out o).
Proof.
  induction o as [|e o IH]; intros Ho; [simpl; lia|].
  inversion Ho as [|? ? [He _] Ho']; subst.
  destruct o as [|e' o].
  - simpl. destruct e; [done|]. simpl. lia.
  - change (join_out (e :: e' :: o)) with (join_out (e' :: o) +:+ "/" +:+ e).
    rewrite !string_length_app. specialize (IH Ho'). simpl in *. lia.
Qed.

Lemma render_length r o : wf_out r o -> length o <= String.length (render r o).
Proof.
  intros Ho. pose proof (join_out_length o (wf_out_elems _ _ Ho)) as H.
  destruct r; unfold render.
  - rewrite string_length_app. lia.
  - destruct o; [simpl; lia|done].
Qed.

Lemma wf_out_head r e o : wf_out r (e :: o) -> e <> "." /\ is_elem e.
Proof.
  intros (names & k & Ho & Hn & _). destruct names as [|n names]; simpl in Ho.
  - destruct k as [|k]; simpl in Ho; [done|].
    injection Ho as -> _. done.
  - injection Ho as -> _. inversion Hn as [|? ? Hname _]; subst.
    split; [|by apply is_name_elem]. by destruct Hname as (_ & ? & _).
Qed.

(** Only the empty buffer renders as a root. *)
Lemma render_root r : render r [] = "." \/ render r [] = "/".
Proof. destruct r; auto. Qed.

Lemma render_not_root r o :
  wf_out r o -> o <> [] -> ~ (render r o = "." \/ render r o = "/").
Proof.
  intros Ho Hne Hroot. destruct o as [|e o]; [done|].
  destruct r.
  - destruct (join_out_head (e :: o)) as (c & s & Hj & Hc);
      [by eapply wf_out_elems|done|].
    unfold render in Hroot. rewrite Hj in Hroot.
    destruct Hroot as [H|H]; discriminate H.
  - destruct o as [|e' o].
    + apply wf_out_head in Ho as (Hdot & _ & Hsep). simpl in Hroot.
      destruct Hroot as [H|H]; [done|]. by rewrite H in Hsep.
    + rewrite render_cons in Hroot by done.
      destruct (join_out_head (e' :: o)) as (c & s & Hj & Hc).
      { apply wf_out_tail in Ho. by eapply wf_out_elems. }
      { done. }
      unfold render in Hroot. rewrite Hj, string_app_cons in Hroot.
      destruct Hroot as [H|H]; injection H as _ H;
        by apply string_app_eq_nil in H as [_ ?].
Qed.

(** ** [pathPrefixes] *)

Lemma pathPrefixes_loop_dirs r o fuel pfxs :
  wf_out r o -> length o <= fuel ->
  pathPrefixes_loop (S fuel) (render r o) pfxs = Some (pfxs ++ dirs r o).
Proof.
  revert fuel pfxs. induction o as [|e o IH]; intros fuel pfxs Ho Hfuel.
  - simpl. rewrite (Dir_render r []) by done. simpl.
    case_decide as H; [done|]. destruct H. apply render_root.
  - cbn [pathPrefixes_loop]. rewrite Dir_render by done. simpl tail.
    pose proof (wf_out_tail _ _ Ho) as Ho'. simpl in Ho'.
    destruct o as [|e' o].
    + case_decide as H; [done|]. destruct H. apply render_root.
    + case_decide as H; [by apply render_not_root in H|].
      simpl in Hfuel. destruct fuel as [|fuel]; [lia|].
      rewrite IH by (done || (simpl; lia)).
      by rewrite <-app_assoc.
Qed.

(** The loop of [pathPrefixes] returns within the bound the definition
    gives it, for every path. *)
Lemma pathPrefixes_loop_returns path :
  let p := Clean path in
  pathPrefixes_loop (S (String.length p)) p [p]
  = Some (p :: dirs (rooted path) (out (Clean_buf path))).
Proof.
  cbv zeta. rewrite Clean_render.
  rewrite pathPrefixes_loop_dirs; [done|apply Clean_wf|].
  apply render_length, Clean_wf.
Qed.

Lemma pathPrefixes_dirs path :
  pathPrefixes path = Clean path :: dirs (rooted path) (out (Clean_buf path)).
Proof. unfold pathPrefixes. by rewrite pathPrefixes_loop_returns. Qed.

(** More fuel does not change what the loop returns. *)
Lemma pathPrefixes_loop_more fuel path pfxs res :
  pathPrefixes_loop fuel path pfxs = Some res ->
  forall fuel', fuel <= fuel' -> pathPrefixes_loop fuel' path pfxs = Some res.
Proof.
  revert path pfxs. induction fuel as [|fuel IH]; intros path pfxs H fuel' Hle.
  - done.
  - destruct fuel' as [|fuel']; [lia|]. simpl in *.
    case_decide; [done|]. apply IH; [done|lia].
Qed.

Lemma Clean_in_pathPrefixes path : Clean path ∈ pathPrefixes path.
Proof. rewrite pathPrefixes_dirs. by left. Qed.

(** ** Paths below a path *)

Lemma app_sep_nonempty p x : p +:+ "/" +:+ x <> "".
Proof. intros H. apply string_app_eq_nil in H as [_ H]. done. Qed.

Lemma nest_nonempty p xs : p <> "" -> nest p xs <> "".
Proof.
  revert p. induction xs as [|x xs IH]; intros p Hp; [done|].
  simpl. apply IH, app_sep_nonempty.
Qed.

Lemma rooted_nest p xs : p <> "" -> rooted (nest p xs) = rooted p.
Proof.
  revert p. induction xs as [|x xs IH]; intros p Hp; [done|].
  simpl. rewrite IH by apply app_sep_nonempty.
  rewrite rooted_app by done. done.
Qed.

Lemma Clean_buf_app_name p x :
  p <> "" -> is_name x ->
  out (Clean_buf (p +:+ "/" +:+ x)) = x :: out (Clean_buf p).
Proof.
  intros Hp Hx. unfold Clean_buf.
  rewrite rooted_app by done.
  rewrite elements_app_sep by (by destruct Hx as (_ & _ & _ & ?)).
  rewrite foldl_app. simpl. by rewrite clean_elem_name.
Qed.

(** Under a path, the names are added to the buffer of the path. *)
Lemma Clean_buf_nest p xs :
  p <> "" -> Forall is_name xs ->
  out (Clean_buf (nest p xs)) = reverse xs ++ out (Clean_buf p).
Proof.
  revert p. induction xs as [|x xs IH]; intros p Hp Hxs; [done|].
  inversion Hxs; subst. simpl.
  rewrite IH by (done || apply app_sep_nonempty).
  rewrite Clean_buf_app_name by done.
  by rewrite reverse_cons, <-app_assoc.
Qed.

Lemma dirs_cons r x o p : p ∈ render r o :: dirs r o -> p ∈ dirs r (x :: o).
Proof.
  destruct o as [|e o]; [|done]. simpl.
  rewrite !elem_of_cons. intros [?|[?|?]]; auto.
Qed.

Lemma dirs_app r o' o p :
  o' <> [] -> p ∈ render r o :: dirs r o -> p ∈ dirs r (o' ++ o).
Proof.
  induction o' as [|x o' IH]; intros Hne Hp; [done|].
  destruct o' as [|x' o'].
  - by apply dirs_cons.
  - apply dirs_cons. right. by apply IH.
Qed.

(** The ancestor chain of a path is part of the ancestor chain of every
    path below it. *)
Lemma pathPrefixes_nest p xs pfx :
  p <> "" -> Forall is_name xs ->
  pfx ∈ pathPrefixes p -> pfx ∈ pathPrefixes (nest p xs).
Proof.
  intros Hp Hxs. destruct xs as [|x xs]; [done|].
  rewrite !pathPrefixes_dirs. rewrite rooted_nest, Clean_buf_nest by done.
  rewrite (Clean_render p). intros H. right. apply dirs_app; [|done].
  rewrite reverse_cons. by destruct (reverse xs).
Qed.

(** ** The loops of [Open] and [ReadDir] *)

Lemma range_pfxs_true hide pfxs :
  range_pfxs hide pfxs = true <-> exists pfx, pfx ∈ pfxs /\ hide pfx = true.
Proof.
  induction pfxs as [|p pfxs IH]; simpl.
  - split; [done|]. intros (? & H & _). by apply elem_of_nil in H.
  - destruct (hide p) eqn:Hp.
    + split; [|done]. intros _. exists p. split; [by left|done].
    + rewrite IH. split.
      * intros (pfx & ? & ?). exists pfx. split; [by right|done].
      * intros (pfx & [->|?]%elem_of_cons & ?); [congruence|eauto].
Qed.

Lemma range_pfxs_false hide pfxs :
  range_pfxs hide pfxs = false <-> forall pfx, pfx ∈ pfxs -> hide pfx = false.
Proof.
  split.
  - intros H pfx Hin. destruct (hide pfx) eqn:Hp; [|done].
    assert (range_pfxs hide pfxs = true) by (apply range_pfxs_true; eauto).
    congruence.
  - intros H. destruct (range_pfxs hide pfxs) eqn:Hr; [|done].
    apply range_pfxs_true in Hr as (pfx & Hin & Hp).
    rewrite (H _ Hin) in Hp. done.
Qed.

(** The invariant of the compaction loop: the first [dst] entries of the
    slice are the kept entries among the first [i] of the slice as it was
    read, and the entries from [i] on are untouched. *)
Lemma range_des_filter skip des0 k i dst des :
  i + k = length des0 -> dst <= i -> length des = length des0 ->
  drop i des = drop i des0 ->
  take dst des = filter (fun de => skip de = false) (take i des0) ->
  let '(dst', des') := range_des skip k i dst des in
  take dst' des' = filter (fun de => skip de = false) des0.
Proof.
  revert i dst des. induction k as [|k IH]; intros i dst des Hik Hdst Hlen Hdrop Htake.
  - simpl. rewrite Htake. by rewrite take_ge by lia.
  - simpl.
    assert (des !! i = des0 !! i) as Hi.
    { rewrite <-(Nat.add_0_r i), <-!lookup_drop. by rewrite Hdrop. }
    destruct (des0 !! i) as [de|] eqn:Hde0; last first.
    { apply lookup_ge_None in Hde0. lia. }
    rewrite Hi.
    assert (drop (S i) des = drop (S i) des0) as Hdrop'.
    { rewrite (drop_S des de i) in Hdrop by done.
      rewrite (drop_S des0 de i) in Hdrop by done. congruence. }
    destruct (skip de) eqn:Hskip.
    + apply IH; [lia|lia|done|done|].
      rewrite (take_S_r des0 i de) by done.
      rewrite filter_app, filter_cons_False, filter_nil, app_nil_r by congruence.
      done.
    + apply IH; [lia|lia|by rewrite length_insert| |].
      * by rewrite drop_insert_lt by lia.
      * rewrite (take_S_r _ dst de) by (apply list_lookup_insert_eq; lia).
        rewrite take_insert_ge by lia.
        rewrite (take_S_r des0 i de) by done.
        rewrite filter_app, filter_cons_True, filter_nil by done.
        by rewrite Htake.
Qed.

(** In-place compaction returns the kept entries, in their order. *)
Lemma compact_filter skip des :
  compact skip des = filter (fun de => skip de = false) des.
Proof.
  unfold compact.
  pose proof (range_des_filter skip des (length des) 0 0 des) as H.
  destruct (range_des skip (length des) 0 0 des) as [dst des'].
  apply H; done.
Qed.

Lemma ReadDir_calls_ext {World} (a b : ReadDir_t World) :
  (forall n w, a n w = b n w) -> ReadDir_same a b.
Proof.
  intros Hab ns. induction ns as [|n ns IH]; intros w; simpl; [done|].
  rewrite Hab. destruct (b n w) as [r w']. by rewrite IH.
Qed.

(** ** The constructors *)

Lemma PathsFS_ExcludePaths_range_root hide hidden :
  "." ∈ hide ->
  PathsFS.ExcludePaths_range hide hidden
  = Panics ("ExcludePaths: cannot hide path " +:+ quote +:+ "." +:+ quote).
Proof.
  revert hidden. induction hide as [|p hide IH]; intros hidden Hin.
  - by apply elem_of_nil in Hin.
  - simpl. case_decide; [done|].
    apply elem_of_cons in Hin as [?|?]; [done|]. by apply IH.
Qed.

Lemma PathsFS_ExcludePaths_range_returns hide hidden :
  "." ∉ hide ->
  exists hidden',
    PathsFS.ExcludePaths_range hide hidden = Returns hidden' /\
    forall p, map_index hidden' p
              = bool_decide (p ∈ hide) || map_index hidden p.
Proof.
  revert hidden. induction hide as [|q hide IH]; intros hidden Hroot.
  - exists hidden. split; [done|]. intros p.
    rewrite bool_decide_eq_false_2; [done|]. apply not_elem_of_nil.
  - apply not_elem_of_cons in Hroot as [Hq Hroot].
    destruct (IH (<[q := true]> hidden) Hroot) as (hidden' & Hret & Hidx).
    exists hidden'. simpl. case_decide; [done|]. split; [done|].
    intros p. rewrite Hidx. unfold map_index.
    destruct (decide (p = q)) as [->|Hne].
    + rewrite lookup_insert_eq. simpl.
      rewrite (bool_decide_eq_true_2 (q ∈ q :: hide)) by (by left).
      by rewrite orb_true_r.
    + rewrite lookup_insert_ne by done.
      destruct (decide (p ∈ hide)) as [Hin|Hnin].
      * rewrite !bool_decide_eq_true_2; [done|by right|done].
      * rewrite !bool_decide_eq_false_2; [done| |done].
        by intros [?|?]%elem_of_cons.
Qed.

Lemma FnFS_ExcludePaths_range_eq hide hidden :
  FnFS.ExcludePaths_range hide hidden = PathsFS.ExcludePaths_range hide hidden.
Proof.
  revert hidden. induction hide as [|p hide IH]; intros hidden; simpl; [done|].
  case_decide; [done|]. apply IH.
Qed.

(** * Properties *)

(** ** Opening an excluded path *)

Lemma FnFS_Open_excluded {World} (f : FnFS.excludeFnFS World) name pfx w :
  pfx ∈ pathPrefixes name -> FnFS.hide f pfx = true ->
  FnFS.excludeFnFS_Open f name w = (Err (PathError "open" name ErrNotExist), w).
Proof.
  intros Hin Hhide. unfold FnFS.excludeFnFS_Open.
  assert (range_pfxs (FnFS.hide f) (pathPrefixes name) = true) as ->; [|done].
  apply range_pfxs_true. eauto.
Qed.

Lemma PathsFS_Open_excluded {World} (f : PathsFS.excludePathsFS World) name pfx w :
  pfx ∈ pathPrefixes name -> map_index (PathsFS.hidden f) pfx = true ->
  PathsFS.excludePathsFS_Open f name w = (Err (PathError "open" name ErrNotExist), w).
Proof.
  intros Hin Hhide. unfold PathsFS.excludePathsFS_Open.
  assert (range_pfxs (map_index (PathsFS.hidden f)) (pathPrefixes name) = true)
    as ->; [|done].
  apply range_pfxs_true. eauto.
Qed.

(** C1: when the predicate (second file) or the hidden set (filter.go)
    holds for a member [pfx] of the ancestor chain [pathPrefixes name] of a
    path, whose first member is the cleaned path itself, [Open name]
    returns [&fs.PathError{Op: "open", Path: name, Err: fs.ErrNotExist}]
    without calling the underlying filesystem; [errors.Is] recognises it as
    [fs.ErrNotExist]; and the same holds for every path [name/x1/.../xn]
    below it. *)
Theorem open_excluded_not_exist {World} (fsys : FS World)
    (hide : string -> bool) (hidden : gmap string bool)
    (name pfx : string) (w : World) :
  pfx ∈ pathPrefixes name ->
  (hide pfx = true ->
     let f := {| FnFS.fsys := fsys; FnFS.hide := hide |} in
     FnFS.excludeFnFS_Open f name w
     = (Err (PathError "open" name ErrNotExist), w) /\
     forall xs, name <> "" -> Forall is_name xs ->
       FnFS.excludeFnFS_Open f (nest name xs) w
       = (Err (PathError "open" (nest name xs) ErrNotExist), w)) /\
  (map_index hidden pfx = true ->
     let f := {| PathsFS.fsys := fsys; PathsFS.hidden := hidden |} in
     PathsFS.excludePathsFS_Open f name w
     = (Err (PathError "open" name ErrNotExist), w) /\
     forall xs, name <> "" -> Forall is_name xs ->
       PathsFS.excludePathsFS_Open f (nest name xs) w
       = (Err (PathError "open" (nest name xs) ErrNotExist), w)) /\
  (forall p, errors_Is (PathError "open" p ErrNotExist) ErrNotExist = true) /\
  filepath.Clean name ∈ pathPrefixes name.
Proof.
  intros Hin. split_and!.
  - intros Hhide f. split.
    + by apply (FnFS_Open_excluded f name pfx).
    + intros xs Hname Hxs. apply (FnFS_Open_excluded f _ pfx); [|done].
      by apply pathPrefixes_nest.
  - intros Hhide f. split.
    + by apply (PathsFS_Open_excluded f name pfx).
    + intros xs Hname Hxs. apply (PathsFS_Open_excluded f _ pfx); [|done].
      by apply pathPrefixes_nest.
  - done.
  - apply Clean_in_pathPrefixes.
Qed.

(** On the tree of the test, with [g/h] hidden: [g/h] and [g/h/i] do not
    open, with the error that the tree itself gives for an absent path. *)
Lemma open_excluded_not_exist_witness :
  let fsys := MemFS.FS MemFS.test_tree in
  let hide := fun s => bool_decide (s = "g/h") in
  let hidden : gmap string bool := {[ "g/h" := true ]} in
  "g/h" ∈ pathPrefixes "g/h" /\
  hide "g/h" = true /\
  map_index hidden "g/h" = true /\
  Forall is_name ["i"] /\
  FnFS.excludeFnFS_Open {| FnFS.fsys := fsys; FnFS.hide := hide |} "g/h" []
  = (Err (PathError "open" "g/h" ErrNotExist), []) /\
  FnFS.excludeFnFS_Open {| FnFS.fsys := fsys; FnFS.hide := hide |} "g/h/i" []
  = (Err (PathError "open" "g/h/i" ErrNotExist), []) /\
  PathsFS.excludePathsFS_Open {| PathsFS.fsys := fsys; PathsFS.hidden := hidden |} "g/h/i" []
  = (Err (PathError "open" "g/h/i" ErrNotExist), []) /\
  Open fsys "absent" [] = (Err (PathError "open" "absent" ErrNotExist), []).
Proof.
  intros fsys hide hidden.
  assert ("g/h" ∈ pathPrefixes "g/h") as Hin by (vm_compute; left).
  assert (Forall is_name ["i"]) as Hi by (repeat constructor; done).
  pose proof (open_excluded_not_exist fsys hide hidden "g/h" "g/h" [] Hin)
    as (Hfn & Hpaths & _ & _).
  destruct (Hfn eq_refl) as [Hfn1 Hfn2].
  destruct (Hpaths eq_refl) as [_ Hpaths2].
  split_and!; [done|done|done|done|exact Hfn1| | |done].
  - exact (Hfn2 ["i"] ltac:(done) Hi).
  - exact (Hpaths2 ["i"] ltac:(done) Hi).
Defined.

(** C1 as stated does not hold for a path that is not in cleaned form.
    With [b/] hidden, the predicate and the hidden set hold for the path
    [b/], whose chain is [b], [.]: [Open] of either wrapper, as
    [ExcludePaths] returns it for the list [b/], goes on to the underlying
    [Open], and on a filesystem that serves the name returns a handle. *)
Lemma open_excluded_not_cleaned :
  let hide := fun s => bool_decide (s = "b/") in
  let hidden : gmap string bool := {[ "b/" := true ]} in
  let fF := {| FnFS.fsys := FaultyFS.FS; FnFS.hide := hide |} in
  let fP := {| PathsFS.fsys := FaultyFS.FS; PathsFS.hidden := hidden |} in
  hide "b/" = true /\
  map_index hidden "b/" = true /\
  pathPrefixes "b/" = ["b"; "."] /\
  PathsFS.ExcludePaths FaultyFS.FS ["b/"]
  = Returns (PathsFS.excludePathsFS_FS fP) /\
  FnFS.excludeFnFS_Open fF "b/" 0
  = Open_rest FaultyFS.FS "b/" (FnFS_decorate fF "b/") 0 /\
  PathsFS.excludePathsFS_Open fP "b/" 0
  = Open_rest FaultyFS.FS "b/" (PathsFS_decorate fP "b/") 0 /\
  Open_error (FnFS.excludeFnFS_FS fF) "b/" 0 = None /\
  Open_error (PathsFS.excludePathsFS_FS fP) "b/" 0 = None.
Proof.
  split_and!; [by vm_compute|by vm_compute|by vm_compute|reflexivity|reflexivity
               |reflexivity|by vm_compute|by vm_compute].
Qed.

(** ** Construction *)

(** C5: [ExcludePaths] of either file panics when [hide] includes ["."],
    and [ExcludeFn] panics when [hide(".")] is true; the constructor takes
    no state of the underlying storage, and returns no wrapper. *)
Theorem root_exclusion_panics {World} (fsys : FS World)
    (hide : list string) (hideFn : string -> bool) :
  ("." ∈ hide ->
     PathsFS.ExcludePaths fsys hide
     = Panics ("ExcludePaths: cannot hide path " +:+ quote +:+ "." +:+ quote) /\
     FnFS.ExcludePaths fsys hide
     = Panics ("ExcludePaths: cannot hide path " +:+ quote +:+ "." +:+ quote) /\
     returned (PathsFS.ExcludePaths fsys hide) = None /\
     returned (FnFS.ExcludePaths fsys hide) = None) /\
  (hideFn "." = true ->
     FnFS.ExcludeFn fsys hideFn
     = Panics ("ExcludeFn: cannot hide path " +:+ quote +:+ "." +:+ quote) /\
     returned (FnFS.ExcludeFn fsys hideFn) = None).
Proof.
  split.
  - intros Hin. unfold PathsFS.ExcludePaths, FnFS.ExcludePaths.
    pose proof (PathsFS_ExcludePaths_range_root hide ∅ Hin) as HP.
    pose proof (FnFS_ExcludePaths_range_eq hide ∅) as HF.
    rewrite HP in HF. rewrite HP, HF. done.
  - intros Hroot. unfold FnFS.ExcludeFn. rewrite Hroot. done.
Qed.

Lemma root_exclusion_panics_witness :
  let fsys := MemFS.FS MemFS.test_tree in
  "." ∈ ["b"; "."; "f"] /\
  (fun s : string => bool_decide (s = ".")) "." = true /\
  returned (PathsFS.ExcludePaths fsys ["b"; "."; "f"]) = None /\
  returned (FnFS.ExcludePaths fsys ["b"; "."; "f"]) = None /\
  returned (FnFS.ExcludeFn fsys (fun s => bool_decide (s = "."))) = None.
Proof.
  intros fsys.
  assert ("." ∈ ["b"; "."; "f"]) as Hin by (right; left).
  pose proof (root_exclusion_panics fsys ["b"; "."; "f"]
                (fun s => bool_decide (s = "."))) as [H1 H2].
  destruct (H1 Hin) as (_ & _ & Hp & Hf).
  destruct (H2 eq_refl) as [_ Hfn].
  done.
Defined.

(** ** [pathPrefixes] on the paths of the specification *)

(** C6, as the code has it: [pathPrefixes(".")] is the root twice, the
    cleaned path and then its [Dir], which the loop appends before it looks
    at it. *)
Theorem pathPrefixes_root : pathPrefixes "." = ["."; "."].
Proof. by vm_compute. Qed.

(** C6 as stated does not hold: the sequence has two elements. *)
Lemma pathPrefixes_root_not_singleton : pathPrefixes "." <> ["."].
Proof. by vm_compute. Qed.

(** C7: [pathPrefixes("a/b/c")] is [a/b/c], [a/b], [a], [.] in this
    order. *)
Theorem pathPrefixes_a_b_c : pathPrefixes "a/b/c" = ["a/b/c"; "a/b"; "a"; "."].
Proof. by vm_compute. Qed.

(** ** Listing a directory *)

Lemma FnFS_ReadDir_ok {World} (d : FnFS.excludeFnDir World) n w des w' :
  ReadDir (FnFS.excludeFnDir_ReadDirFile d) n w = ((des, None), w') ->
  FnFS.excludeFnDir_ReadDir d n w
  = ((filter (fun de =>
                FnFS.hide (FnFS.excludeFnDir_FS d)
                  (filepath.Clean (FnFS.path d +:+ "/" +:+ DirEntry_Name de))
                = false) des, None), w').
Proof.
  intros H. unfold FnFS.excludeFnDir_ReadDir. rewrite H.
  by rewrite compact_filter.
Qed.

Lemma PathsFS_ReadDir_ok {World} (d : PathsFS.excludePathsDir World) n w des w' :
  ReadDir (PathsFS.excludePathsDir_ReadDirFile d) n w = ((des, None), w') ->
  PathsFS.excludePathsDir_ReadDir d n w
  = ((filter (fun de =>
                map_index (PathsFS.hidden (PathsFS.excludePathsDir_FS d))
                  (filepath.Join [PathsFS.path d; DirEntry_Name de])
                = false) des, None), w').
Proof.
  intros H. unfold PathsFS.excludePathsDir_ReadDir. rewrite H.
  by rewrite compact_filter.
Qed.

Lemma FnFS_ReadDir_err {World} (d : FnFS.excludeFnDir World) n w des err w' :
  ReadDir (FnFS.excludeFnDir_ReadDirFile d) n w = ((des, Some err), w') ->
  FnFS.excludeFnDir_ReadDir d n w = (([], Some err), w').
Proof. intros H. unfold FnFS.excludeFnDir_ReadDir. by rewrite H. Qed.

Lemma PathsFS_ReadDir_err {World} (d : PathsFS.excludePathsDir World) n w des err w' :
  ReadDir (PathsFS.excludePathsDir_ReadDirFile d) n w = ((des, Some err), w') ->
  PathsFS.excludePathsDir_ReadDir d n w = (([], Some err), w').
Proof. intros H. unfold PathsFS.excludePathsDir_ReadDir. by rewrite H. Qed.




(** C10: when the underlying [ReadDir] returns an error, [ReadDir] of a
    directory handle of either wrapper returns the nil slice and that
    error, whatever entries came with the error. *)
Theorem ReadDir_error_discards_entries {World} (dF : FnFS.excludeFnDir World)
    (dP : PathsFS.excludePathsDir World) (n : Z) (w : World) :
  (forall des err w',
     ReadDir (FnFS.excludeFnDir_ReadDirFile dF) n w = ((des, Some err), w') ->
     FnFS.excludeFnDir_ReadDir dF n w = (([], Some err), w')) /\
  (forall des err w',
     ReadDir (PathsFS.excludePathsDir_ReadDirFile dP) n w = ((des, Some err), w') ->
     PathsFS.excludePathsDir_ReadDir dP n w = (([], Some err), w')).
Proof.
  split; intros des err w' H.
  - by eapply FnFS_ReadDir_err.
  - by eapply PathsFS_ReadDir_err.
Qed.

Lemma ReadDir_error_discards_entries_witness :
  let dF := {| FnFS.path := "d";
               FnFS.excludeFnDir_FS :=
                 {| FnFS.fsys := FaultyFS.FS; FnFS.hide := fun _ => false |};
               FnFS.excludeFnDir_ReadDirFile := FaultyFS.dir |} in
  let dP := {| PathsFS.path := "d";
               PathsFS.excludePathsDir_FS :=
                 {| PathsFS.fsys := FaultyFS.FS; PathsFS.hidden := ∅ |};
               PathsFS.excludePathsDir_ReadDirFile := FaultyFS.dir |} in
  ReadDir FaultyFS.dir 1%Z 1 = (([FaultyFS.entry], Some FaultyFS.ioerr), 1) /\
  FnFS.excludeFnDir_ReadDir dF 1%Z 1 = (([], Some FaultyFS.ioerr), 1) /\
  PathsFS.excludePathsDir_ReadDir dP 1%Z 1 = (([], Some FaultyFS.ioerr), 1).
Proof.
  intros dF dP.
  assert (ReadDir FaultyFS.dir 1%Z 1 = (([FaultyFS.entry], Some FaultyFS.ioerr), 1))
    as H by done.
  pose proof (ReadDir_error_discards_entries dF dP 1%Z 1) as [HF HP].
  split_and!; [exact H|exact (HF _ _ _ H)|exact (HP _ _ _ H)].
Defined.

(** ** Opening a path that is not excluded *)

Lemma FnFS_Open_visible {World} (f : FnFS.excludeFnFS World) name w :
  (forall pfx, pfx ∈ pathPrefixes name -> FnFS.hide f pfx = false) ->
  FnFS.excludeFnFS_Open f name w
  = Open_rest (FnFS.fsys f) name
      (fun rdf => FnFS.excludeFnDir_File
                    {| FnFS.path := name; FnFS.excludeFnDir_FS := f;
                       FnFS.excludeFnDir_ReadDirFile := rdf |}) w.
Proof.
  intros H. apply range_pfxs_false in H.
  unfold FnFS.excludeFnFS_Open. by rewrite H.
Qed.

Lemma PathsFS_Open_visible {World} (f : PathsFS.excludePathsFS World) name w :
  (forall pfx, pfx ∈ pathPrefixes name ->
               map_index (PathsFS.hidden f) pfx = false) ->
  PathsFS.excludePathsFS_Open f name w
  = Open_rest (PathsFS.fsys f) name
      (fun rdf => PathsFS.excludePathsDir_File
                    {| PathsFS.path := name; PathsFS.excludePathsDir_FS := f;
                       PathsFS.excludePathsDir_ReadDirFile := rdf |}) w.
Proof.
  intros H. apply range_pfxs_false in H.
  unfold PathsFS.excludePathsFS_Open. by rewrite H.
Qed.

(** What [Open_rest] returns once the underlying [Open] and [Stat] have
    succeeded. *)
Lemma Open_rest_ok {World} (fsys : FS World) name wrap w file w1 fi w2 :
  Open fsys name w = (Ok file, w1) ->
  File_Stat file w1 = (Ok fi, w2) ->
  (forall rdf, File_Stat (wrap rdf) = Stat rdf /\ File_Read (wrap rdf) = Read rdf /\
               File_Close (wrap rdf) = Close rdf) ->
  exists file',
    Open_rest fsys name wrap w = (Ok file', w2) /\
    File_Stat file' = File_Stat file /\
    File_Read file' = File_Read file /\
    File_Close file' = File_Close file /\
    (FileInfo_IsDir fi = false -> file' = file) /\
    (File_ReadDir file = None -> file' = file) /\
    (forall rd, FileInfo_IsDir fi = true -> File_ReadDir file = Some rd ->
       file' = wrap {| Stat := File_Stat file; Read := File_Read file;
                       Close := File_Close file; ReadDir := rd |}).
Proof.
  intros HO HS Hwrap. unfold Open_rest. rewrite HO, HS.
  unfold assert_ReadDirFile.
  destruct (FileInfo_IsDir fi) eqn:Hdir; [|by exists file].
  destruct (File_ReadDir file) as [rd|] eqn:Hrd; [|by exists file].
  eexists. split; [done|].
  destruct (Hwrap {| Stat := File_Stat file; Read := File_Read file;
                     Close := File_Close file; ReadDir := rd |}) as (-> & -> & ->).
  split_and!; try done. by intros rd' _ [= ->].
Qed.

(** C4, as the code has it: for a path that is not excluded, when the
    underlying [Open] succeeds and [Stat] of the handle it returns succeeds,
    [Open] of either wrapper succeeds, with the state those two calls left;
    [Stat], [Read] and [Close] of the handle it returns are those of the
    underlying handle; the underlying handle itself is returned for a
    non-directory and for a directory without [ReadDir]; a directory with
    [ReadDir] is returned as the decorator that remembers [name]. *)
Theorem open_visible {World} (fsys : FS World) (hide : string -> bool)
    (hidden : gmap string bool) (name : string) (w : World)
    (file : File World) (w1 : World) (fi : FileInfo) (w2 : World) :
  Open fsys name w = (Ok file, w1) ->
  File_Stat file w1 = (Ok fi, w2) ->
  ((forall pfx, pfx ∈ pathPrefixes name -> hide pfx = false) ->
     let f := {| FnFS.fsys := fsys; FnFS.hide := hide |} in
     exists file',
       FnFS.excludeFnFS_Open f name w = (Ok file', w2) /\
       File_Stat file' = File_Stat file /\
       File_Read file' = File_Read file /\
       File_Close file' = File_Close file /\
       (FileInfo_IsDir fi = false -> file' = file) /\
       (File_ReadDir file = None -> file' = file) /\
       (forall rd, FileInfo_IsDir fi = true -> File_ReadDir file = Some rd ->
          file' = FnFS.excludeFnDir_File
                    {| FnFS.path := name; FnFS.excludeFnDir_FS := f;
                       FnFS.excludeFnDir_ReadDirFile :=
                         {| Stat := File_Stat file; Read := File_Read file;
                            Close := File_Close file; ReadDir := rd |} |})) /\
  ((forall pfx, pfx ∈ pathPrefixes name -> map_index hidden pfx = false) ->
     let f := {| PathsFS.fsys := fsys; PathsFS.hidden := hidden |} in
     exists file',
       PathsFS.excludePathsFS_Open f name w = (Ok file', w2) /\
       File_Stat file' = File_Stat file /\
       File_Read file' = File_Read file /\
       File_Close file' = File_Close file /\
       (FileInfo_IsDir fi = false -> file' = file) /\
       (File_ReadDir file = None -> file' = file) /\
       (forall rd, FileInfo_IsDir fi = true -> File_ReadDir file = Some rd ->
          file' = PathsFS.excludePathsDir_File
                    {| PathsFS.path := name; PathsFS.excludePathsDir_FS := f;
                       PathsFS.excludePathsDir_ReadDirFile :=
                         {| Stat := File_Stat file; Read := File_Read file;
                            Close := File_Close file; ReadDir := rd |} |})).
Proof.
  intros HO HS. split; intros Hvis f.
  - rewrite FnFS_Open_visible by done.
    exact (Open_rest_ok fsys name
             (fun rdf => FnFS.excludeFnDir_File
                           {| FnFS.path := name; FnFS.excludeFnDir_FS := f;
                              FnFS.excludeFnDir_ReadDirFile := rdf |})
             w file w1 fi w2 HO HS
             (fun rdf => conj eq_refl (conj eq_refl eq_refl))).
  - rewrite PathsFS_Open_visible by done.
    exact (Open_rest_ok fsys name
             (fun rdf => PathsFS.excludePathsDir_File
                           {| PathsFS.path := name; PathsFS.excludePathsDir_FS := f;
                              PathsFS.excludePathsDir_ReadDirFile := rdf |})
             w file w1 fi w2 HO HS
             (fun rdf => conj eq_refl (conj eq_refl eq_refl))).
Qed.

(** On the test tree with [b], [f], [g/h] hidden: the file [a] is returned
    as the underlying handle, and reads [a]. *)
Lemma open_visible_witness :
  let fsys := MemFS.FS MemFS.test_tree in
  let hide := fun s => bool_decide (s ∈ ["b"; "f"; "g/h"]) in
  let file := MemFS.handle "a" (MemFS.file "a") 0 in
  Open fsys "a" [] = (Ok file, [0]) /\
  (exists fi, File_Stat file [0] = (Ok fi, [0]) /\ FileInfo_IsDir fi = false) /\
  (forall pfx, pfx ∈ pathPrefixes "a" -> hide pfx = false) /\
  FnFS.excludeFnFS_Open {| FnFS.fsys := fsys; FnFS.hide := hide |} "a" []
  = (Ok file, [0]) /\
  File_Read file 1 [0] = (("a", Some EOF), [0]).
Proof.
  intros fsys hide file.
  assert (Open fsys "a" [] = (Ok file, [0])) as HO by done.
  assert (forall pfx, pfx ∈ pathPrefixes "a" -> hide pfx = false) as Hvis.
  { intros pfx Hin. apply (range_pfxs_false hide (pathPrefixes "a")); [|done].
    by vm_compute. }
  destruct (open_visible fsys hide ∅ "a" [] file [0] _ [0] HO eq_refl)
    as [HF _].
  destruct (HF Hvis) as (file' & Hopen & _ & _ & _ & Hfile & _).
  rewrite (Hfile eq_refl) in Hopen.
  split_and!; [exact HO|by eexists|exact Hvis|exact Hopen|done].
Defined.

(** C4 as stated does not hold when [Stat] of the underlying handle fails:
    [FaultyFS], whose [Stat] has been called once before, opens [d], nothing
    is hidden, and [Open] of either wrapper returns the error of [Stat]. *)
Lemma open_visible_counterexample :
  Open FaultyFS.FS "d" 1 = (Ok FaultyFS.handle, 1) /\
  (forall pfx, pfx ∈ pathPrefixes "d" -> (fun _ : string => false) pfx = false) /\
  FnFS.excludeFnFS_Open
    {| FnFS.fsys := FaultyFS.FS; FnFS.hide := fun _ => false |} "d" 1
  = (Err ErrPermission, 2) /\
  PathsFS.excludePathsFS_Open
    {| PathsFS.fsys := FaultyFS.FS; PathsFS.hidden := ∅ |} "d" 1
  = (Err ErrPermission, 2).
Proof. split_and!; [done|done|by vm_compute|by vm_compute]. Qed.

(** ** Errors of the underlying layer *)

Lemma Open_rest_errors {World} (fsys : FS World) name wrap w :
  (forall err w1,
     Open fsys name w = (Err err, w1) ->
     Open_rest fsys name wrap w = (Err err, w1)) /\
  (forall file w1 err w2,
     Open fsys name w = (Ok file, w1) ->
     File_Stat file w1 = (Err err, w2) ->
     Open_rest fsys name wrap w = (Err err, w2)).
Proof.
  split.
  - intros err w1 HO. unfold Open_rest. by rewrite HO.
  - intros file w1 err w2 HO HS. unfold Open_rest. by rewrite HO, HS.
Qed.

(** C9: for a path whose ancestor chain is not excluded, an error of the
    underlying [Open], of [Stat] on the handle it returned, or of [ReadDir]
    on the directory behind the handle the wrapper returned, is the error
    the caller gets, as it is and with the state the failed call left; no
    call is made again. Both wrappers. *)
Theorem underlying_errors_unchanged {World} (fsys : FS World)
    (hide : string -> bool) (hidden : gmap string bool)
    (name : string) (w : World) :
  ((forall pfx, pfx ∈ pathPrefixes name -> hide pfx = false) ->
     let f := {| FnFS.fsys := fsys; FnFS.hide := hide |} in
     (forall err w1,
        Open fsys name w = (Err err, w1) ->
        FnFS.excludeFnFS_Open f name w = (Err err, w1)) /\
     (forall file w1 err w2,
        Open fsys name w = (Ok file, w1) ->
        File_Stat file w1 = (Err err, w2) ->
        FnFS.excludeFnFS_Open f name w = (Err err, w2)) /\
     (forall file w1 fi w2 rd,
        Open fsys name w = (Ok file, w1) ->
        File_Stat file w1 = (Ok fi, w2) ->
        FileInfo_IsDir fi = true ->
        File_ReadDir file = Some rd ->
        exists file' rd',
          FnFS.excludeFnFS_Open f name w = (Ok file', w2) /\
          File_ReadDir file' = Some rd' /\
          forall n w3 des err w4,
            rd n w3 = ((des, Some err), w4) ->
            rd' n w3 = (([], Some err), w4))) /\
  ((forall pfx, pfx ∈ pathPrefixes name -> map_index hidden pfx = false) ->
     let f := {| PathsFS.fsys := fsys; PathsFS.hidden := hidden |} in
     (forall err w1,
        Open fsys name w = (Err err, w1) ->
        PathsFS.excludePathsFS_Open f name w = (Err err, w1)) /\
     (forall file w1 err w2,
        Open fsys name w = (Ok file, w1) ->
        File_Stat file w1 = (Err err, w2) ->
        PathsFS.excludePathsFS_Open f name w = (Err err, w2)) /\
     (forall file w1 fi w2 rd,
        Open fsys name w = (Ok file, w1) ->
        File_Stat file w1 = (Ok fi, w2) ->
        FileInfo_IsDir fi = true ->
        File_ReadDir file = Some rd ->
        exists file' rd',
          PathsFS.excludePathsFS_Open f name w = (Ok file', w2) /\
          File_ReadDir file' = Some rd' /\
          forall n w3 des err w4,
            rd n w3 = ((des, Some err), w4) ->
            rd' n w3 = (([], Some err), w4))).
Proof.
  split; intros Hvis f.
  - rewrite FnFS_Open_visible by done. split_and!.
    + apply Open_rest_errors.
    + apply Open_rest_errors.
    + intros file w1 fi w2 rd HO HS Hdir Hrd.
      unfold Open_rest. subst f. simpl FnFS.fsys. rewrite HO, HS, Hdir.
      unfold assert_ReadDirFile. rewrite Hrd.
      eexists _, _. split_and!; [done|done|].
      intros n w3 des err w4 H. by eapply FnFS_ReadDir_err.
  - rewrite PathsFS_Open_visible by done. split_and!.
    + apply Open_rest_errors.
    + apply Open_rest_errors.
    + intros file w1 fi w2 rd HO HS Hdir Hrd.
      unfold Open_rest. subst f. simpl PathsFS.fsys. rewrite HO, HS, Hdir.
      unfold assert_ReadDirFile. rewrite Hrd.
      eexists _, _. split_and!; [done|done|].
      intros n w3 des err w4 H. by eapply PathsFS_ReadDir_err.
Qed.

(** With nothing hidden: an absent path of the test tree gives the error of
    the tree; on [FaultyFS] the error of the second [Stat] and the error of
    [ReadDir] come through. *)
Lemma underlying_errors_unchanged_witness :
  let hide := fun _ : string => false in
  let tfs := MemFS.FS MemFS.test_tree in
  (forall pfx, pfx ∈ pathPrefixes "absent" -> hide pfx = false) /\
  Open tfs "absent" [] = (Err (PathError "open" "absent" ErrNotExist), []) /\
  FnFS.excludeFnFS_Open {| FnFS.fsys := tfs; FnFS.hide := hide |} "absent" []
  = (Err (PathError "open" "absent" ErrNotExist), []) /\
  Open FaultyFS.FS "d" 1 = (Ok FaultyFS.handle, 1) /\
  File_Stat FaultyFS.handle 1 = (Err ErrPermission, 2) /\
  FnFS.excludeFnFS_Open {| FnFS.fsys := FaultyFS.FS; FnFS.hide := hide |} "d" 1
  = (Err ErrPermission, 2) /\
  Open_ReadDir
    (PathsFS.excludePathsFS_FS {| PathsFS.fsys := FaultyFS.FS; PathsFS.hidden := ∅ |})
    "d" 3%Z 0
  = Some ([], Some FaultyFS.ioerr).
Proof.
  intros hide tfs.
  assert (forall name pfx, pfx ∈ pathPrefixes name -> hide pfx = false) as Hvis
    by done.
  assert (forall name pfx, pfx ∈ pathPrefixes name ->
                           map_index (∅ : gmap string bool) pfx = false) as HvisP
    by done.
  pose proof (underlying_errors_unchanged tfs hide ∅ "absent" []) as [HA _].
  destruct (HA (Hvis "absent")) as (HA1 & _ & _).
  pose proof (underlying_errors_unchanged FaultyFS.FS hide ∅ "d" 1) as [HB _].
  destruct (HB (Hvis "d")) as (_ & HB2 & _).
  pose proof (underlying_errors_unchanged FaultyFS.FS hide ∅ "d" 0) as [_ HC].
  destruct (HC (HvisP "d")) as (_ & _ & HC3).
  destruct (HC3 FaultyFS.handle 0 _ 1 _ eq_refl eq_refl eq_refl eq_refl)
    as (file' & rd' & HCopen & HCrd & HCerr).
  split_and!; [exact (Hvis "absent")|done|exact (HA1 _ _ eq_refl)|done|done
              |exact (HB2 _ _ _ _ eq_refl eq_refl)|].
  unfold Open_ReadDir. simpl Open. rewrite HCopen, HCrd.
  by rewrite (HCerr 3%Z 1 [FaultyFS.entry] FaultyFS.ioerr 1 eq_refl).
Defined.

(** ** The two implementations of [ExcludePaths] *)

Lemma Join_pair name x :
  name <> "" -> filepath.Join [name; x] = filepath.Clean (name +:+ "/" +:+ x).
Proof. intros Hne. unfold filepath.Join. by case_decide. Qed.

Lemma compact_ext skip1 skip2 des :
  (forall de, skip1 de = skip2 de) -> compact skip1 des = compact skip2 des.
Proof.
  intros H. rewrite !compact_filter. apply list_filter_iff.
  intros de. by rewrite H.
Qed.

Lemma ReadDir_same_refl {World} (rd : ReadDir_t World) : ReadDir_same rd rd.
Proof. done. Qed.

Lemma File_rel_refl {World} (R : ReadDir_t World -> ReadDir_t World -> Prop) file :
  (forall rd, R rd rd) -> File_rel R file file.
Proof. intros HR. split_and!; try done. by destruct (File_ReadDir file). Qed.

(** [Open_rest] with two decorators that are related on every directory. *)
Lemma Open_rest_rel {World} (R : ReadDir_t World -> ReadDir_t World -> Prop)
    (fsys : FS World) name wrap1 wrap2 w :
  (forall rd, R rd rd) ->
  (forall rdf, File_rel R (wrap1 rdf) (wrap2 rdf)) ->
  Open_rel R (Open_rest fsys name wrap1 w) (Open_rest fsys name wrap2 w).
Proof.
  intros HR Hwrap. unfold Open_rest.
  destruct (Open fsys name w) as [[file|err] w1]; [|done].
  destruct (File_Stat file w1) as [[fi|err] w2]; [|done].
  destruct (FileInfo_IsDir fi); [|by split; [|apply File_rel_refl]].
  destruct (assert_ReadDirFile file) as [rdf|].
  - split; [done|]. apply Hwrap.
  - by split; [|apply File_rel_refl].
Qed.

(** The handles of the two files for the same directory: for a name that is
    not empty they list alike. *)
Lemma dir_handles_rel {World} (fsys : FS World) (hidden : gmap string bool)
    name (rdf : ReadDirFile World) :
  File_rel (fun a b => name <> "" -> ReadDir_same a b)
    (PathsFS.excludePathsDir_File
       {| PathsFS.path := name;
          PathsFS.excludePathsDir_FS :=
            {| PathsFS.fsys := fsys; PathsFS.hidden := hidden |};
          PathsFS.excludePathsDir_ReadDirFile := rdf |})
    (FnFS.excludeFnDir_File
       {| FnFS.path := name;
          FnFS.excludeFnDir_FS :=
            {| FnFS.fsys := fsys; FnFS.hide := fun s => map_index hidden s |};
          FnFS.excludeFnDir_ReadDirFile := rdf |}).
Proof.
  split_and!; try done.
  cbn [File_ReadDir PathsFS.excludePathsDir_File FnFS.excludeFnDir_File].
  intros Hne. apply ReadDir_calls_ext. intros n w.
  unfold PathsFS.excludePathsDir_ReadDir, FnFS.excludeFnDir_ReadDir.
  cbn [PathsFS.path PathsFS.hidden PathsFS.excludePathsDir_FS
       PathsFS.excludePathsDir_ReadDirFile FnFS.path FnFS.hide
       FnFS.excludeFnDir_FS FnFS.excludeFnDir_ReadDirFile].
  destruct (ReadDir rdf n w) as [[des [err|]] w']; [done|].
  f_equal. f_equal. apply compact_ext. intros de. by rewrite Join_pair.
Qed.

(** C3, as the code has it: for a hide list without the root, both
    [ExcludePaths] return a wrapper, and for every underlying filesystem,
    path and state, [Open] of the two returns the same error, or handles
    with the same [Stat], [Read] and [Close], of which both or neither have
    [ReadDir], with the same state; when the path is not the empty string,
    every sequence of [ReadDir] calls on the two handles returns the same
    results. *)
Theorem ExcludePaths_implementations_agree {World} (fsys : FS World)
    (hide : list string) (name : string) (w : World) :
  "." ∉ hide ->
  exists F1 F2,
    PathsFS.ExcludePaths fsys hide = Returns F1 /\
    FnFS.ExcludePaths fsys hide = Returns F2 /\
    Open_rel (fun a b => name <> "" -> ReadDir_same a b)
      (Open F1 name w) (Open F2 name w).
Proof.
  intros Hroot.
  destruct (PathsFS_ExcludePaths_range_returns hide ∅ Hroot) as (hidden & Hret & Hidx).
  exists (PathsFS.excludePathsFS_FS {| PathsFS.fsys := fsys; PathsFS.hidden := hidden |}).
  exists (FnFS.excludeFnFS_FS
            {| FnFS.fsys := fsys; FnFS.hide := fun s => map_index hidden s |}).
  split_and!.
  - unfold PathsFS.ExcludePaths. by rewrite Hret.
  - unfold FnFS.ExcludePaths.
    pose proof (FnFS_ExcludePaths_range_eq hide ∅) as HF. rewrite Hret in HF.
    rewrite HF. unfold FnFS.ExcludeFn. rewrite Hidx.
    rewrite bool_decide_eq_false_2 by done. done.
  - simpl Open.
    destruct (range_pfxs (map_index hidden) (pathPrefixes name)) eqn:Hr.
    + apply range_pfxs_true in Hr as (pfx & Hin & Hp).
      rewrite (PathsFS_Open_excluded _ name pfx) by done.
      rewrite (FnFS_Open_excluded _ name pfx) by done. done.
    + pose proof Hr as Hvis. rewrite range_pfxs_false in Hvis.
      rewrite PathsFS_Open_visible by done.
      rewrite FnFS_Open_visible by done.
      apply Open_rest_rel; [done|]. intros rdf. apply dir_handles_rel.
Qed.

(** On the test tree with [b], [f] and [g/h] hidden, the root opened
    through either file lists [a], [d], [e], [g]. *)
Lemma ExcludePaths_implementations_agree_witness :
  let fsys := MemFS.FS MemFS.test_tree in
  ("." ∉ ["b"; "f"; "g/h"]) /\
  (exists F1 F2,
     PathsFS.ExcludePaths fsys ["b"; "f"; "g/h"] = Returns F1 /\
     FnFS.ExcludePaths fsys ["b"; "f"; "g/h"] = Returns F2 /\
     Open_rel (fun a b => "." <> "" -> ReadDir_same a b)
       (Open F1 "." []) (Open F2 "." []) /\
     Open_ReadDir F1 "." (-1)%Z []
     = Some ([MemFS.f "a"; MemFS.f "d"; MemFS.d "e"; MemFS.d "g"], None) /\
     Open_ReadDir F2 "." (-1)%Z []
     = Some ([MemFS.f "a"; MemFS.f "d"; MemFS.d "e"; MemFS.d "g"], None)).
Proof.
  intros fsys.
  assert ("." ∉ ["b"; "f"; "g/h"]) as Hroot.
  { intros H. by repeat (apply elem_of_cons in H as [?|H]; [done|]);
      apply elem_of_nil in H. }
  split; [exact Hroot|].
  destruct (ExcludePaths_implementations_agree fsys ["b"; "f"; "g/h"] "." [] Hroot)
    as (F1 & F2 & H1 & H2 & Hrel).
  exists F1, F2. split_and!; [exact H1|exact H2|exact Hrel| |].
  - by injection H1 as <-.
  - by injection H2 as <-.
Defined.

(** C3 as stated does not hold for the empty path: on a tree that serves
    a directory with the entry [a] under the empty name, with [a] hidden,
    the handle of filter.go tests [Join("", "a") = "a"] and lists nothing,
    the handle of the second file tests [Clean("/a") = "/a"] and lists
    [a]. *)
Lemma ExcludePaths_implementations_differ :
  let fsys := MemFS.FS MemFS.empty_name_tree in
  let hidden : gmap string bool := <["a" := true]> ∅ in
  let F1 := PathsFS.excludePathsFS_FS
              {| PathsFS.fsys := fsys; PathsFS.hidden := hidden |} in
  let F2 := FnFS.excludeFnFS_FS
              {| FnFS.fsys := fsys; FnFS.hide := fun s => map_index hidden s |} in
  PathsFS.ExcludePaths fsys ["a"] = Returns F1 /\
  FnFS.ExcludePaths fsys ["a"] = Returns F2 /\
  filepath.Join [""; "a"] = "a" /\
  filepath.Clean ("" +:+ "/" +:+ "a") = "/a" /\
  Open_ReadDir F1 "" (-1)%Z [] = Some ([], None) /\
  Open_ReadDir F2 "" (-1)%Z [] = Some ([MemFS.f "a"], None).
Proof.
  split_and!; [reflexivity|reflexivity|by vm_compute..].
Qed.

(** ** A wrapper around a wrapper *)

Lemma range_pfxs_or hide1 hide2 hide12 pfxs :
  (forall p, hide12 p = hide1 p || hide2 p) ->
  range_pfxs hide12 pfxs = range_pfxs hide1 pfxs || range_pfxs hide2 pfxs.
Proof.
  intros H. induction pfxs as [|p pfxs IH]; simpl; [done|].
  rewrite H, IH. destruct (hide1 p), (hide2 p); simpl; try done.
  by rewrite orb_true_r.
Qed.

(** Compacting twice is compacting once with either condition. *)
Lemma compact_compact skip1 skip2 skip12 des :
  (forall de, skip12 de = skip1 de || skip2 de) ->
  compact skip2 (compact skip1 des) = compact skip12 des.
Proof.
  intros H. rewrite !compact_filter, list_filter_filter.
  apply list_filter_iff. intros de. rewrite H.
  destruct (skip1 de), (skip2 de); simpl; intuition congruence.
Qed.

(** [Open] of a wrapper with hidden set [h2] around a wrapper with hidden
    set [h1], against [Open] of one wrapper whose hidden set holds both. *)
Lemma PathsFS_Open_nested {World} (fsys : FS World)
    (h1 h2 h12 : gmap string bool) name w :
  (forall p, map_index h12 p = map_index h1 p || map_index h2 p) ->
  Stat_repeats fsys name w ->
  Open_rel ReadDir_same
    (PathsFS.excludePathsFS_Open
       {| PathsFS.fsys :=
            PathsFS.excludePathsFS_FS {| PathsFS.fsys := fsys; PathsFS.hidden := h1 |};
          PathsFS.hidden := h2 |} name w)
    (PathsFS.excludePathsFS_Open
       {| PathsFS.fsys := fsys; PathsFS.hidden := h12 |} name w).
Proof.
  intros H12 Hstat.
  unfold PathsFS.excludePathsFS_Open.
  cbn [PathsFS.fsys PathsFS.hidden].
  rewrite (range_pfxs_or (map_index h1) (map_index h2) (map_index h12))
    by done.
  destruct (range_pfxs (map_index h2) (pathPrefixes name)) eqn:Hr2.
  { by rewrite orb_true_r. }
  rewrite orb_false_r.
  cbn [Open PathsFS.excludePathsFS_FS].
  unfold PathsFS.excludePathsFS_Open. cbn [PathsFS.fsys PathsFS.hidden].
  destruct (range_pfxs (map_index h1) (pathPrefixes name)) eqn:Hr1; [done|].
  destruct (Open fsys name w) as [[file|err] w1] eqn:HO; [|done].
  destruct (File_Stat file w1) as [[fi|err] w2] eqn:HS; [|done].
  destruct (Hstat file w1 fi w2 HO HS) as (fi' & HS' & Hdir').
  unfold assert_ReadDirFile.
  destruct (FileInfo_IsDir fi) eqn:Hdir.
  - destruct (File_ReadDir file) as [rd|] eqn:Hrd.
    + cbn [File_Stat PathsFS.excludePathsDir_File Stat
           PathsFS.excludePathsDir_ReadDirFile].
      rewrite HS', Hdir'.
      cbn [File_ReadDir File_Read File_Close File_Stat
           PathsFS.excludePathsDir_File].
      split; [done|]. split_and!; try done.
      cbn [File_ReadDir PathsFS.excludePathsDir_File].
      apply ReadDir_calls_ext. intros n w'.
      unfold PathsFS.excludePathsDir_ReadDir.
      cbn [PathsFS.path PathsFS.hidden PathsFS.excludePathsDir_FS
           PathsFS.excludePathsDir_ReadDirFile ReadDir].
      destruct (rd n w') as [[des [err|]] w'']; [done|].
      f_equal. f_equal. apply compact_compact. intros de. apply H12.
    + rewrite HS', Hdir', Hrd. split; [done|]. by apply File_rel_refl.
  - rewrite HS', Hdir'. split; [done|]. by apply File_rel_refl.
Qed.

(** C8, as the code has it: for hide lists [h1] and [h2] without the root,
    and for a path and state at which [Stat] of the underlying handle can
    be asked twice ([Stat_repeats]), [Open] of [ExcludePaths] around
    [ExcludePaths] returns what [Open] of one [ExcludePaths] with both
    lists returns: the same error, or handles with the same [Stat], [Read]
    and [Close] whose [ReadDir] return the same on every sequence of calls,
    and the same state. *)
Theorem nested_exclusion_is_union {World} (fsys : FS World)
    (h1 h2 : list string) (name : string) (w : World) :
  "." ∉ h1 -> "." ∉ h2 ->
  Stat_repeats fsys name w ->
  exists inner outer union,
    PathsFS.ExcludePaths fsys h1 = Returns inner /\
    PathsFS.ExcludePaths inner h2 = Returns outer /\
    PathsFS.ExcludePaths fsys (h1 ++ h2) = Returns union /\
    Open_rel ReadDir_same (Open outer name w) (Open union name w).
Proof.
  intros Hr1 Hr2 Hstat.
  destruct (PathsFS_ExcludePaths_range_returns h1 ∅ Hr1) as (m1 & Hm1 & Hi1).
  destruct (PathsFS_ExcludePaths_range_returns h2 ∅ Hr2) as (m2 & Hm2 & Hi2).
  assert ("." ∉ h1 ++ h2) as Hr12.
  { rewrite elem_of_app. tauto. }
  destruct (PathsFS_ExcludePaths_range_returns (h1 ++ h2) ∅ Hr12)
    as (m12 & Hm12 & Hi12).
  eexists _, _, _. split_and!.
  - unfold PathsFS.ExcludePaths. by rewrite Hm1.
  - unfold PathsFS.ExcludePaths. by rewrite Hm2.
  - unfold PathsFS.ExcludePaths. by rewrite Hm12.
  - cbn [Open PathsFS.excludePathsFS_FS].
    apply PathsFS_Open_nested; [|done].
    intros p. rewrite Hi1, Hi2, Hi12. unfold map_index.
    rewrite lookup_empty. simpl. rewrite !orb_false_r.
    destruct (decide (p ∈ h1)) as [?|?], (decide (p ∈ h2)) as [?|?];
      rewrite ?(bool_decide_eq_true_2 (p ∈ h1)), ?(bool_decide_eq_false_2 (p ∈ h1)),
        ?(bool_decide_eq_true_2 (p ∈ h2)), ?(bool_decide_eq_false_2 (p ∈ h2)) by done;
      simpl.
    + apply bool_decide_eq_true_2, elem_of_app. auto.
    + apply bool_decide_eq_true_2, elem_of_app. auto.
    + apply bool_decide_eq_true_2, elem_of_app. auto.
    + apply bool_decide_eq_false_2. rewrite elem_of_app. tauto.
Qed.

Lemma MemFS_Stat_repeats tree name w : Stat_repeats (MemFS.FS tree) name w.
Proof.
  intros file w1 fi w2 HO HS. cbn [Open MemFS.FS] in HO.
  unfold MemFS.tree_Open in HO.
  destruct (tree !! name) as [[data|entries]|]; [| |done].
  - injection HO as <- <-. injection HS as <- <-. by eexists.
  - injection HO as <- <-. injection HS as <- <-. by eexists.
Qed.

(** On the test tree: [b] hidden, then [f] and [g/h] hidden around it,
    lists the root as one wrapper with the three paths does. *)
Lemma nested_exclusion_is_union_witness :
  let fsys := MemFS.FS MemFS.test_tree in
  ("." ∉ ["b"]) /\ ("." ∉ ["f"; "g/h"]) /\
  Stat_repeats fsys "." [] /\
  (exists inner outer union,
     PathsFS.ExcludePaths fsys ["b"] = Returns inner /\
     PathsFS.ExcludePaths inner ["f"; "g/h"] = Returns outer /\
     PathsFS.ExcludePaths fsys (["b"] ++ ["f"; "g/h"]) = Returns union /\
     Open_rel ReadDir_same (Open outer "." []) (Open union "." []) /\
     Open_ReadDir outer "." (-1)%Z []
     = Some ([MemFS.f "a"; MemFS.f "d"; MemFS.d "e"; MemFS.d "g"], None)).
Proof.
  intros fsys.
  assert ("." ∉ ["b"]) as H1.
  { intros H. by repeat (apply elem_of_cons in H as [?|H]; [done|]);
      apply elem_of_nil in H. }
  assert ("." ∉ ["f"; "g/h"]) as H2.
  { intros H. by repeat (apply elem_of_cons in H as [?|H]; [done|]);
      apply elem_of_nil in H. }
  pose proof (MemFS_Stat_repeats MemFS.test_tree "." []) as Hstat.
  split_and!; [exact H1|exact H2|exact Hstat|].
  destruct (nested_exclusion_is_union fsys ["b"] ["f"; "g/h"] "." [] H1 H2 Hstat)
    as (inner & outer & union & Hi & Ho & Hu & Hrel).
  exists inner, outer, union.
  split_and!; [exact Hi|exact Ho|exact Hu|exact Hrel|].
  injection Hi as <-. by injection Ho as <-.
Defined.

(** C8 as stated does not hold for every underlying filesystem: the outer
    wrapper calls [Stat] on the handle the inner wrapper returns, which is
    [Stat] of the underlying handle a second time. On [FaultyFS], whose
    [Stat] succeeds once, with both hide lists empty, the nested wrappers
    fail to open [d] with the error of the second [Stat], where the one
    wrapper returns the directory. *)
Lemma nested_exclusion_differs :
  let inner := PathsFS.excludePathsFS_FS
                 {| PathsFS.fsys := FaultyFS.FS; PathsFS.hidden := ∅ |} in
  let outer := PathsFS.excludePathsFS_FS
                 {| PathsFS.fsys := inner; PathsFS.hidden := ∅ |} in
  let union := PathsFS.excludePathsFS_FS
                 {| PathsFS.fsys := FaultyFS.FS; PathsFS.hidden := ∅ |} in
  PathsFS.ExcludePaths FaultyFS.FS [] = Returns inner /\
  PathsFS.ExcludePaths inner [] = Returns outer /\
  PathsFS.ExcludePaths FaultyFS.FS ([] ++ []) = Returns union /\
  Open outer "d" 0 = (Err ErrPermission, 2) /\
  Open union "d" 0
  = (Ok (PathsFS.excludePathsDir_File
           {| PathsFS.path := "d";
              PathsFS.excludePathsDir_FS :=
                {| PathsFS.fsys := FaultyFS.FS; PathsFS.hidden := ∅ |};
              PathsFS.excludePathsDir_ReadDirFile := FaultyFS.dir |}), 1).
Proof.
  split_and!; [reflexivity|reflexivity|reflexivity|by vm_compute|reflexivity].
Qed.

(** * Further properties *)

Lemma dirs_last r o : last (dirs r o) = Some "." \/ last (dirs r o) = Some "/".
Proof.
  induction o as [|e o IH].
  - destruct r; simpl; auto.
  - destruct o as [|e' o]; [destruct r; simpl; auto|].
    change (dirs r (e :: e' :: o)) with (render r (e' :: o) :: dirs r (e' :: o)).
    rewrite last_cons. destruct IH as [->| ->]; auto.
Qed.

(** The loop of [pathPrefixes] returns for every path, within the number
    of iterations the model allows it and with the same result for any
    larger number; the result starts with the cleaned path and ends with a
    root. *)
Theorem pathPrefixes_returns (path : string) :
  let p := filepath.Clean path in
  exists pfxs,
    pathPrefixes_loop (S (String.length p)) p [p] = Some (p :: pfxs) /\
    pathPrefixes path = p :: pfxs /\
    (forall fuel, S (String.length p) <= fuel ->
                  pathPrefixes_loop fuel p [p] = Some (p :: pfxs)) /\
    (last pfxs = Some "." \/ last pfxs = Some "/").
Proof.
  intros p. pose proof (pathPrefixes_loop_returns path) as H. cbv zeta in H.
  exists (dirs (rooted path) (out (Clean_buf path))).
  split_and!.
  - exact H.
  - apply pathPrefixes_dirs.
  - intros fuel Hfuel. by eapply pathPrefixes_loop_more.
  - apply dirs_last.
Qed.

(** The chain of a path directly below a cleaned path that is not a root
    is the path followed by the chain of the cleaned path; the chain of a
    single name is the name and the root. *)
Theorem pathPrefixes_parent_chain (p x : string) :
  is_name x ->
  pathPrefixes x = [x; "."] /\
  (filepath.Clean p = p -> p <> "." -> p <> "/" ->
   pathPrefixes (p +:+ "/" +:+ x) = (p +:+ "/" +:+ x) :: pathPrefixes p).
Proof.
  intros Hx. split.
  - rewrite pathPrefixes_dirs, Clean_render.
    assert (out (Clean_buf x) = [x]) as ->.
    { pose proof Hx as (_ & _ & _ & Hs). unfold no_sep in Hs.
      unfold Clean_buf. rewrite Hs. simpl. by rewrite clean_elem_name. }
    assert (rooted x = false) as ->; [|done].
    destruct Hx as (? & _ & _ & Hs). destruct x as [|c x]; [done|].
    apply no_sep_cons in Hs as [Hc _]. done.
  - intros Hclean Hdot Hroot.
    assert (p <> "") as Hne by (by intros ->).
    assert (out (Clean_buf p) <> []) as Ho.
    { intros Ho. rewrite Clean_render, Ho in Hclean.
      destruct (render_root (rooted p)); congruence. }
    rewrite !pathPrefixes_dirs, !Clean_render.
    rewrite rooted_app, Clean_buf_app_name by done.
    rewrite render_cons by done. rewrite <-Clean_render, Hclean.
    f_equal. destruct (out (Clean_buf p)) as [|e o] eqn:Hout; [done|].
    change (dirs (rooted p) (x :: e :: o))
      with (render (rooted p) (e :: o) :: dirs (rooted p) (e :: o)).
    by rewrite <-Hout, <-Clean_render, Hclean.
Qed.

Lemma pathPrefixes_parent_chain_witness :
  is_name "c" /\
  filepath.Clean "a/b" = "a/b" /\
  pathPrefixes "c" = ["c"; "."] /\
  pathPrefixes ("a/b" +:+ "/" +:+ "c") = ("a/b" +:+ "/" +:+ "c") :: pathPrefixes "a/b".
Proof.
  assert (is_name "c") as Hc by done.
  destruct (pathPrefixes_parent_chain "a/b" "c" Hc) as [H1 H2].
  split_and!; [exact Hc|done|exact H1|].
  apply H2; done.
Defined.


(** The scenario of [TestExcludePaths]: over the tree [a], [b/c], [d],
    [e/f], [g/h/i], with [b], [f] and [g/h] excluded, through either
    [ExcludePaths]: the root lists [a], [d], [e], [g]; [e] lists [f] (the
    hidden [f] is the path [f], not [e/f]); [g] lists nothing; [a] reads
    [a]; and [b], [f], [b/c], [g/h], [g/h/i] do not exist. *)
Theorem TestExcludePaths_scenario :
  let mapfs := MemFS.FS MemFS.test_tree in
  forall hfs,
    returned (PathsFS.ExcludePaths mapfs ["b"; "f"; "g/h"]) = Some hfs \/
    returned (FnFS.ExcludePaths mapfs ["b"; "f"; "g/h"]) = Some hfs ->
    Open_ReadDir hfs "." (-1)%Z []
    = Some ([MemFS.f "a"; MemFS.f "d"; MemFS.d "e"; MemFS.d "g"], None) /\
    Open_ReadDir hfs "e" (-1)%Z [] = Some ([MemFS.f "f"], None) /\
    Open_ReadDir hfs "g" (-1)%Z [] = Some ([], None) /\
    Open_Read hfs "a" 1 [] = Some "a" /\
    Forall (fun exclude =>
              match Open_error hfs exclude [] with
              | Some err => errors_Is err ErrNotExist = true
              | None => False
              end)
           ["b"; "f"; "b/c"; "g/h"; "g/h/i"].
Proof.
  intros mapfs hfs [H|H]; injection H as <-;
    (split_and!; [by vm_compute..|]); repeat constructor; by vm_compute.
Qed.

Lemma TestExcludePaths_scenario_witness :
  let mapfs := MemFS.FS MemFS.test_tree in
  let hfs := PathsFS.excludePathsFS_FS
               {| PathsFS.fsys := mapfs;
                  PathsFS.hidden :=
                    <["g/h" := true]> (<["f" := true]> (<["b" := true]> ∅)) |} in
  returned (PathsFS.ExcludePaths mapfs ["b"; "f"; "g/h"]) = Some hfs /\
  Open_ReadDir hfs "." (-1)%Z []
  = Some ([MemFS.f "a"; MemFS.f "d"; MemFS.d "e"; MemFS.d "g"], None).
Proof.
  intros mapfs hfs.
  assert (returned (PathsFS.ExcludePaths mapfs ["b"; "f"; "g/h"]) = Some hfs)
    as H by reflexivity.
  split; [exact H|].
  exact (proj1 (TestExcludePaths_scenario hfs (or_introl H))).
Defined.

(** ** Sequences of [ReadDir] calls *)

Lemma FnFS_ReadDir_passed_on {World} (d : FnFS.excludeFnDir World) n w :
  FnFS.excludeFnDir_ReadDir d n w
  = (passed_on (FnFS_skip (FnFS.excludeFnDir_FS d) (FnFS.path d))
       (ReadDir (FnFS.excludeFnDir_ReadDirFile d) n w).1,
     (ReadDir (FnFS.excludeFnDir_ReadDirFile d) n w).2).
Proof.
  destruct (ReadDir (FnFS.excludeFnDir_ReadDirFile d) n w) as [[des [err|]] w'] eqn:H.
  - by rewrite (FnFS_ReadDir_err d n w des err w').
  - by rewrite (FnFS_ReadDir_ok d n w des w').
Qed.

Lemma PathsFS_ReadDir_passed_on {World} (d : PathsFS.excludePathsDir World) n w :
  PathsFS.excludePathsDir_ReadDir d n w
  = (passed_on (PathsFS_skip (PathsFS.excludePathsDir_FS d) (PathsFS.path d))
       (ReadDir (PathsFS.excludePathsDir_ReadDirFile d) n w).1,
     (ReadDir (PathsFS.excludePathsDir_ReadDirFile d) n w).2).
Proof.
  destruct (ReadDir (PathsFS.excludePathsDir_ReadDirFile d) n w)
    as [[des [err|]] w'] eqn:H.
  - by rewrite (PathsFS_ReadDir_err d n w des err w').
  - by rewrite (PathsFS_ReadDir_ok d n w des w').
Qed.

Lemma ReadDir_calls_passed_on {World} (rd rd' : ReadDir_t World) skip :
  (forall n w, rd' n w = (passed_on skip (rd n w).1, (rd n w).2)) ->
  forall ns w,
    ReadDir_calls rd' ns w
    = (map (passed_on skip) (ReadDir_calls rd ns w).1, (ReadDir_calls rd ns w).2).
Proof.
  intros H ns. induction ns as [|n ns IH]; intros w; simpl; [done|].
  rewrite H. destruct (rd n w) as [r w1]. simpl.
  rewrite IH. by destruct (ReadDir_calls rd ns w1).
Qed.

(** ** The slice in memory *)

Lemma load_insert m a b v :
  Slices.load (<[a := v]> m) b = if decide (a = b) then v else Slices.load m b.
Proof.
  unfold Slices.load. destruct (decide (a = b)) as [->|Hne].
  - by rewrite lookup_insert_eq.
  - by rewrite lookup_insert_ne.
Qed.

Lemma contents_length m s : length (Slices.contents m s) = Slices.len s.
Proof. unfold Slices.contents. by rewrite length_map, length_seq. Qed.

Lemma contents_lookup m s i :
  i < Slices.len s ->
  Slices.contents m s !! i = Some (Slices.load m (Slices.ptr s + i)).
Proof.
  intros Hi. unfold Slices.contents.
  rewrite list_lookup_fmap, lookup_seq_lt by done. done.
Qed.

Lemma contents_ext m m' s s' :
  Slices.len s = Slices.len s' ->
  (forall i, i < Slices.len s ->
     Slices.load m (Slices.ptr s + i) = Slices.load m' (Slices.ptr s' + i)) ->
  Slices.contents m s = Slices.contents m' s'.
Proof.
  intros Hlen H. unfold Slices.contents. rewrite <-Hlen.
  apply list_eq. intros i. rewrite !list_lookup_fmap.
  destruct (decide (i < Slices.len s)) as [Hi|Hi].
  - rewrite lookup_seq_lt by done. simpl. by rewrite H.
  - rewrite lookup_seq_ge by lia. done.
Qed.

Lemma contents_upto_S m s d :
  Slices.contents m (Slices.upto s (S d))
  = Slices.contents m (Slices.upto s d) ++ [Slices.load m (Slices.ptr s + d)].
Proof.
  unfold Slices.contents. cbn [Slices.upto Slices.len Slices.ptr].
  by rewrite seq_S, fmap_app.
Qed.

(** The loop over the entries, on a slice without nil: the cells before
    [dst] hold the entries kept so far, those from [i] on are as they
    were, and no cell outside the slice is written. *)
Lemma Slices_range_des_kept skip des l m0 k i dst m :
  Slices.contents m0 des = map Some l ->
  i + k = Slices.len des -> dst <= i ->
  (forall j, i <= j < Slices.len des ->
     Slices.load m (Slices.ptr des + j) = Slices.load m0 (Slices.ptr des + j)) ->
  (forall a, ~ (Slices.ptr des <= a < Slices.ptr des + Slices.len des) ->
     Slices.load m a = Slices.load m0 a) ->
  Slices.contents m (Slices.upto des dst)
  = map Some (filter (fun de => skip de = false) (take i l)) ->
  exists m',
    Slices.range_des skip des k i dst m
    = Returns (length (filter (fun de => skip de = false) l), m') /\
    Slices.contents m'
      (Slices.upto des (length (filter (fun de => skip de = false) l)))
    = map Some (filter (fun de => skip de = false) l) /\
    (forall a, ~ (Slices.ptr des <= a < Slices.ptr des + Slices.len des) ->
       Slices.load m' a = Slices.load m0 a).
Proof.
  intros Hl. assert (length l = Slices.len des) as Hlen.
  { rewrite <-(contents_length m0 des), Hl. by rewrite length_map. }
  revert i dst m. induction k as [|k IH]; intros i dst m Hik Hdst Hrest Hout Hkept.
  - assert (i = length l) as -> by lia. rewrite take_ge in Hkept by lia.
    assert (dst = length (filter (fun de => skip de = false) l)) as ->.
    { apply (f_equal length) in Hkept.
      by rewrite contents_length, length_map in Hkept. }
    exists m. done.
  - assert (i < length l) as Hi by lia.
    destruct (lookup_lt_is_Some_2 l i Hi) as [de Hde].
    assert (Slices.load m (Slices.ptr des + i) = Some de) as Hload.
    { rewrite Hrest by lia.
      assert (Slices.contents m0 des !! i = Some (Some de)) as H.
      { rewrite Hl, list_lookup_fmap, Hde. done. }
      rewrite contents_lookup in H by lia. congruence. }
    simpl. rewrite Hload.
    destruct (skip de) eqn:Hskip.
    + apply IH; [lia|lia| |done|].
      * intros j Hj. apply Hrest. lia.
      * rewrite (take_S_r l i de) by done.
        rewrite filter_app, filter_cons_False, filter_nil, app_nil_r by congruence.
        done.
    + unfold Slices.assign. rewrite decide_True by lia. simpl.
      apply IH; [lia|lia| | |].
      * intros j Hj. rewrite load_insert, decide_False by lia. apply Hrest. lia.
      * intros a Ha. rewrite load_insert, decide_False by lia. by apply Hout.
      * rewrite (take_S_r l i de) by done.
        rewrite filter_app, filter_cons_True, filter_nil by done.
        rewrite fmap_app. simpl.
        assert (dst = length (filter (fun de => skip de = false) (take i l))) as Hd.
        { apply (f_equal length) in Hkept.
          by rewrite contents_length, length_map in Hkept. }
        rewrite contents_upto_S. f_equal.
        -- etrans; [|exact Hkept]. apply contents_ext; [done|].
           cbn [Slices.upto Slices.len Slices.ptr]. intros j Hj.
           by rewrite load_insert, decide_False by lia.
        -- by rewrite load_insert, decide_True by done.
Qed.

(** The loop over the entries panics at the first nil. *)
Lemma Slices_range_des_nil skip des k i dst m j :
  i + k <= Slices.len des -> dst <= i -> i <= j < i + k ->
  Slices.load m (Slices.ptr des + j) = None ->
  Slices.range_des skip des k i dst m = Panics Slices.nil_dereference.
Proof.
  revert i dst m. induction k as [|k IH]; intros i dst m Hik Hdst Hj Hnil; [lia|].
  simpl. destruct (Slices.load m (Slices.ptr des + i)) as [de|] eqn:Hload; [|done].
  assert (i <> j) as Hne by (intros ->; congruence).
  destruct (skip de).
  - apply IH; [lia|lia|lia|done].
  - unfold Slices.assign. rewrite decide_True by lia. simpl.
    apply IH; [lia|lia|lia|]. by rewrite load_insert, decide_False by lia.
Qed.

(** The loop over the tail sets its cells to nil and no other. *)
Lemma Slices_range_tail tail k i m :
  i + k <= Slices.len tail ->
  exists m',
    Slices.range_tail tail k i m = Returns m' /\
    forall a, Slices.load m' a
              = if decide (Slices.ptr tail + i <= a < Slices.ptr tail + i + k)
                then None else Slices.load m a.
Proof.
  revert i m. induction k as [|k IH]; intros i m Hik.
  - exists m. split; [done|]. intros a. by rewrite decide_False by lia.
  - simpl. unfold Slices.assign. rewrite decide_True by lia. simpl.
    destruct (IH (S i) (<[Slices.ptr tail + i := None]> m)) as (m' & Heq & Hm');
      [lia|].
    exists m'. split; [exact Heq|]. intros a. rewrite Hm', load_insert.
    repeat case_decide; try done; lia.
Qed.

(** The shared text on a slice without nil: it returns the first cells of
    the slice, which hold the entries that are not skipped; the other
    cells of the slice hold nil; no cell outside the slice is written. *)
Lemma Slices_compact_kept skip des l m :
  Slices.contents m des = map Some l ->
  let kept := filter (fun de => skip de = false) l in
  exists m',
    Slices.compact skip des m = Returns (Slices.upto des (length kept), m') /\
    Slices.contents m' (Slices.upto des (length kept)) = map Some kept /\
    Slices.contents m' des
    = map Some kept ++ replicate (length l - length kept) None /\
    (forall a, ~ (Slices.ptr des <= a < Slices.ptr des + Slices.len des) ->
       Slices.load m' a = Slices.load m a).
Proof.
  intros Hl kept.
  assert (length l = Slices.len des) as Hlen.
  { rewrite <-(contents_length m des), Hl. by rewrite length_map. }
  assert (length kept <= length l) as Hk by apply length_filter.
  destruct (Slices_range_des_kept skip des l m (Slices.len des) 0 0 m Hl)
    as (m1 & Hloop & Hkept & Hout); [done|done|done|done|done|].
  unfold Slices.compact. rewrite Hloop. simpl.
  unfold Slices.from. rewrite decide_True by (fold kept; lia). simpl.
  fold kept in Hkept |- *.
  destruct (Slices_range_tail
              {| Slices.ptr := Slices.ptr des + length kept;
                 Slices.len := Slices.len des - length kept |}
              (Slices.len des - length kept) 0 m1) as (m2 & -> & Hm2);
    [simpl; lia|].
  simpl in Hm2. exists m2. simpl. split; [done|].
  assert (Slices.contents m2 (Slices.upto des (length kept)) = map Some kept)
    as Hfirst.
  { rewrite <-Hkept. apply contents_ext; [done|]. simpl. intros i Hi.
    by rewrite Hm2, decide_False by lia. }
  split_and!; [exact Hfirst| |].
  - apply list_eq. intros i.
    destruct (decide (i < length kept)) as [Hi|Hi].
    + rewrite lookup_app_l by (by rewrite length_map).
      rewrite <-Hfirst, !contents_lookup by (simpl; lia). done.
    + rewrite lookup_app_r by (rewrite length_map; lia). rewrite length_map.
      destruct (decide (i < length l)) as [Hil|Hil].
      * rewrite contents_lookup by lia. rewrite Hm2, decide_True by lia.
        symmetry. apply lookup_replicate_2. lia.
      * rewrite lookup_ge_None_2 by (rewrite contents_length; lia).
        symmetry. apply lookup_ge_None_2. rewrite length_replicate. lia.
  - intros a Ha. rewrite Hm2, decide_False by lia. by apply Hout.
Qed.

(** The shared text on a slice that holds a nil. *)
Lemma Slices_compact_nil skip des m :
  None ∈ Slices.contents m des ->
  Slices.compact skip des m = Panics Slices.nil_dereference.
Proof.
  intros Hin. apply list_elem_of_lookup in Hin as [j Hj].
  assert (j < Slices.len des) as Hlt.
  { rewrite <-(contents_length m des). by eapply lookup_lt_Some. }
  rewrite contents_lookup in Hj by done.
  unfold Slices.compact.
  rewrite (Slices_range_des_nil skip des (Slices.len des) 0 0 m j);
    [done|lia|lia|lia|congruence].
Qed.

(** ** [ReadDir] on the slice in memory *)

Lemma Slices_FnFS_ReadDir_err {State} path hide (rd : Slices.ReadDir_t State)
    n w des err w' :
  rd n w = ((des, Some err), w') ->
  Slices.excludeFnDir_ReadDir path hide rd n w
  = Returns ((Slices.nil, Some err), w').
Proof. intros H. unfold Slices.excludeFnDir_ReadDir. by rewrite H. Qed.

Lemma Slices_PathsFS_ReadDir_err {State} path hidden (rd : Slices.ReadDir_t State)
    n w des err w' :
  rd n w = ((des, Some err), w') ->
  Slices.excludePathsDir_ReadDir path hidden rd n w
  = Returns ((Slices.nil, Some err), w').
Proof. intros H. unfold Slices.excludePathsDir_ReadDir. by rewrite H. Qed.

Lemma Slices_FnFS_ReadDir_compact {State} path hide (rd : Slices.ReadDir_t State)
    n w des m s :
  rd n w = ((des, None), (m, s)) ->
  Slices.excludeFnDir_ReadDir path hide rd n w
  = '(des, m) ← Slices.compact
                  (fun de => hide (Clean (path +:+ "/" +:+ DirEntry_Name de))) des m;
    Returns ((des, None), (m, s)).
Proof. intros H. unfold Slices.excludeFnDir_ReadDir. by rewrite H. Qed.

Lemma Slices_PathsFS_ReadDir_compact {State} path hidden
    (rd : Slices.ReadDir_t State) n w des m s :
  rd n w = ((des, None), (m, s)) ->
  Slices.excludePathsDir_ReadDir path hidden rd n w
  = '(des, m) ← Slices.compact
                  (fun de => map_index hidden (filepath.Join [path; DirEntry_Name de]))
                  des m;
    Returns ((des, None), (m, s)).
Proof. intros H. unfold Slices.excludePathsDir_ReadDir. by rewrite H. Qed.

(** A wrapper's [ReadDir] over a handle that hands its slices over
    returns, in memory, the underlying result passed on. *)
Lemma Slices_passed_on {State} skip (rd_s : Slices.ReadDir_t State)
    (rd : ReadDir_t State)
    (wr : Z -> Slices.World State
          -> outcome ((Slices.slice * option error) * Slices.World State)) :
  (forall n w des err w',
     rd_s n w = ((des, Some err), w') -> wr n w = Returns ((Slices.nil, Some err), w')) ->
  (forall n w des m s,
     rd_s n w = ((des, None), (m, s)) ->
     wr n w = '(des, m) ← Slices.compact skip des m; Returns ((des, None), (m, s))) ->
  Slices.hands_over rd_s rd ->
  forall n m s, exists des m',
    wr n (m, s)
    = Returns ((des, (passed_on skip (rd n s).1).2), (m', (rd n s).2)) /\
    Slices.contents m' des = map Some (passed_on skip (rd n s).1).1.
Proof.
  intros Herr Hok Hrd n m s. destruct (Hrd n m s) as (des & m1 & Hcall & Hdes).
  destruct (rd n s) as [[l [err|]] s'] eqn:Hval; simpl in *.
  - exists Slices.nil, m1. split; [by apply (Herr n (m, s) des)|done].
  - destruct (Slices_compact_kept skip des l m1 Hdes) as (m2 & Hc & Hkept & _).
    exists (Slices.upto des (length (filter (fun de => skip de = false) l))), m2.
    split; [|exact Hkept].
    rewrite (Hok n (m, s) des m1 s' Hcall), Hc. done.
Qed.

Lemma Slices_ReadDir_calls_passed_on {State} skip (rd : ReadDir_t State)
    (wr : Z -> Slices.World State
          -> outcome ((Slices.slice * option error) * Slices.World State)) :
  (forall n m s, exists des m',
     wr n (m, s)
     = Returns ((des, (passed_on skip (rd n s).1).2), (m', (rd n s).2)) /\
     Slices.contents m' des = map Some (passed_on skip (rd n s).1).1) ->
  forall ns m s, exists m',
    Slices.ReadDir_calls wr ns (m, s)
    = Returns (map (seen ∘ passed_on skip) (ReadDir_calls rd ns s).1,
               (m', (ReadDir_calls rd ns s).2)).
Proof.
  intros Hwr ns. induction ns as [|n ns IH]; intros m s.
  - exists m. done.
  - destruct (Hwr n m s) as (des & m1 & Hcall & Hdes).
    destruct (IH m1 (rd n s).2) as (m2 & Hrest).
    exists m2. cbn [Slices.ReadDir_calls ReadDir_calls]. rewrite Hcall.
    destruct (rd n s) as [r s1]. cbn [mbind outcome_bind fst snd] in *.
    rewrite Hrest. destruct (ReadDir_calls rd ns s1) as [rs s2].
    cbn [mbind outcome_bind fst snd map]. unfold compose at 1, seen at 1.
    by rewrite Hdes.
Qed.

Lemma concat_passed_on skip (rs : list (list DirEntry * option error)) :
  Forall (fun r => r.2 = None) rs ->
  concat ((map (passed_on skip) rs).*1)
  = filter (fun de => skip de = false) (concat (rs.*1)).
Proof.
  intros Hrs. induction Hrs as [|[des err] rs Herr _ IH]; [done|].
  simpl in Herr. subst err. simpl. rewrite filter_app. f_equal. exact IH.
Qed.

(** ** Handles *)

Lemma contents_cons m p n :
  Slices.contents m {| Slices.ptr := p; Slices.len := S n |}
  = Slices.load m p
    :: Slices.contents m {| Slices.ptr := S p; Slices.len := n |}.
Proof.
  unfold Slices.contents. cbn [Slices.ptr Slices.len seq map].
  rewrite Nat.add_0_r. f_equal. rewrite <-fmap_S_seq, <-list_fmap_compose.
  apply list_fmap_ext. intros _ i _. simpl. f_equal. lia.
Qed.

Lemma load_store_lt p es m a :
  a < p -> Slices.load (Slices.store p es m) a = Slices.load m a.
Proof.
  revert p m. induction es as [|e es IH]; intros p m Ha; [done|].
  simpl. rewrite IH by lia. by rewrite load_insert, decide_False by lia.
Qed.

Lemma contents_store p es m :
  Slices.contents (Slices.store p es m)
    {| Slices.ptr := p; Slices.len := length es |} = es.
Proof.
  revert p m. induction es as [|e es IH]; intros p m; [done|].
  cbn [length]. rewrite contents_cons. cbn [Slices.store]. rewrite IH. f_equal.
  rewrite load_store_lt by lia. by rewrite load_insert, decide_True.
Qed.

Lemma allocating_hands_over {State} (rd : ReadDir_t State) :
  Slices.hands_over (Slices.allocating rd) rd.
Proof.
  intros n m s. unfold Slices.allocating. destruct (rd n s) as [[des err] s'].
  eexists _, _. split; [done|]. simpl.
  rewrite <-(length_map Some des) at 1. apply contents_store.
Qed.

(** Paging through a directory whose underlying handle hands its slices
    over. Any sequence of [ReadDir] calls on a handle of either wrapper
    returns, without a panic, what the same sequence of calls on the
    underlying handle returns, one for one, each result passed on: its
    entries without the excluded ones, or no entry and the error; the
    state of the underlying handle is the one its own calls leave. This
    is also what the listing computed on values gives. Without an error,
    the listing taken over all the calls is the underlying listing without
    the excluded entries, however the calls cut it. *)
Theorem ReadDir_calls_filter {State} (dF : FnFS.excludeFnDir State)
    (dP : PathsFS.excludePathsDir State) (rdF rdP : Slices.ReadDir_t State)
    (ns : list Z) (m : Slices.Memory) (s : State) :
  Slices.hands_over rdF (ReadDir (FnFS.excludeFnDir_ReadDirFile dF)) ->
  Slices.hands_over rdP (ReadDir (PathsFS.excludePathsDir_ReadDirFile dP)) ->
  let underF := ReadDir_calls (ReadDir (FnFS.excludeFnDir_ReadDirFile dF)) ns s in
  let underP := ReadDir_calls (ReadDir (PathsFS.excludePathsDir_ReadDirFile dP)) ns s in
  let skipF := FnFS_skip (FnFS.excludeFnDir_FS dF) (FnFS.path dF) in
  let skipP := PathsFS_skip (PathsFS.excludePathsDir_FS dP) (PathsFS.path dP) in
  ((exists m',
      Slices.ReadDir_calls
        (Slices.excludeFnDir_ReadDir (FnFS.path dF)
           (FnFS.hide (FnFS.excludeFnDir_FS dF)) rdF) ns (m, s)
      = Returns (map (seen ∘ passed_on skipF) underF.1, (m', underF.2))) /\
   ReadDir_calls (FnFS.excludeFnDir_ReadDir dF) ns s
   = (map (passed_on skipF) underF.1, underF.2) /\
   (Forall (fun r => r.2 = None) underF.1 ->
    concat ((map (passed_on skipF) underF.1).*1)
    = filter (fun de => skipF de = false) (concat (underF.1.*1)))) /\
  ((exists m',
      Slices.ReadDir_calls
        (Slices.excludePathsDir_ReadDir (PathsFS.path dP)
           (PathsFS.hidden (PathsFS.excludePathsDir_FS dP)) rdP) ns (m, s)
      = Returns (map (seen ∘ passed_on skipP) underP.1, (m', underP.2))) /\
   ReadDir_calls (PathsFS.excludePathsDir_ReadDir dP) ns s
   = (map (passed_on skipP) underP.1, underP.2) /\
   (Forall (fun r => r.2 = None) underP.1 ->
    concat ((map (passed_on skipP) underP.1).*1)
    = filter (fun de => skipP de = false) (concat (underP.1.*1)))).
Proof.
  intros HF HP underF underP skipF skipP. split; split_and!.
  - apply Slices_ReadDir_calls_passed_on.
    apply (Slices_passed_on skipF rdF); [|by intros; apply Slices_FnFS_ReadDir_compact|done].
    intros. by eapply Slices_FnFS_ReadDir_err.
  - apply ReadDir_calls_passed_on. apply FnFS_ReadDir_passed_on.
  - apply concat_passed_on.
  - apply Slices_ReadDir_calls_passed_on.
    apply (Slices_passed_on skipP rdP); [|by intros; apply Slices_PathsFS_ReadDir_compact|done].
    intros. by eapply Slices_PathsFS_ReadDir_err.
  - apply ReadDir_calls_passed_on. apply PathsFS_ReadDir_passed_on.
  - apply concat_passed_on.
Qed.

(** The root of the test tree with [b] hidden, read by twos and then to
    the end, from a handle that returns each batch in an array of its
    own: [a], then [d] and [e], then [g], then nothing; the underlying
    calls returned [a] and [b], [d] and [e], [g], and nothing. *)
Lemma ReadDir_calls_filter_witness :
  let fF := {| FnFS.fsys := MemFS.FS MemFS.test_tree;
               FnFS.hide := fun s => bool_decide (s = "b") |} in
  let fP := {| PathsFS.fsys := MemFS.FS MemFS.test_tree;
               PathsFS.hidden := {[ "b" := true ]} |} in
  let dF := {| FnFS.path := "."; FnFS.excludeFnDir_FS := fF;
               FnFS.excludeFnDir_ReadDirFile := MemFS.test_root |} in
  let dP := {| PathsFS.path := "."; PathsFS.excludePathsDir_FS := fP;
               PathsFS.excludePathsDir_ReadDirFile := MemFS.test_root |} in
  let rd := Slices.allocating (ReadDir MemFS.test_root) in
  let ns := [2; 2; 2; -1]%Z in
  Slices.hands_over rd (ReadDir MemFS.test_root) /\
  (ReadDir_calls (ReadDir MemFS.test_root) ns [0]).1
  = [ ([MemFS.f "a"; MemFS.d "b"], None); ([MemFS.f "d"; MemFS.d "e"], None);
      ([MemFS.d "g"], None); ([], None) ] /\
  (exists m',
     Slices.ReadDir_calls (Slices.excludeFnDir_ReadDir "." (FnFS.hide fF) rd) ns (∅, [0])
     = Returns ([ ([Some (MemFS.f "a")], None);
                  ([Some (MemFS.f "d"); Some (MemFS.d "e")], None);
                  ([Some (MemFS.d "g")], None); ([], None) ], (m', [5]))) /\
  (exists m',
     Slices.ReadDir_calls (Slices.excludePathsDir_ReadDir "." (PathsFS.hidden fP) rd)
       ns (∅, [0])
     = Returns ([ ([Some (MemFS.f "a")], None);
                  ([Some (MemFS.f "d"); Some (MemFS.d "e")], None);
                  ([Some (MemFS.d "g")], None); ([], None) ], (m', [5]))).
Proof.
  intros fF fP dF dP rd ns.
  assert (Slices.hands_over rd (ReadDir MemFS.test_root)) as Hrd
    by apply allocating_hands_over.
  destruct (ReadDir_calls_filter dF dP rd rd ns ∅ [0] Hrd Hrd)
    as [(HF & _ & _) (HP & _ & _)].
  split_and!; [exact Hrd|by vm_compute|exact HF|exact HP].
Defined.

(** ** The slice after [ReadDir] *)

(** [ReadDir] of either wrapper filters in place, in the slice that the
    underlying [ReadDir] returned with a nil error. When no entry of the
    slice is nil, it returns the first cells of that slice, as many as
    there are entries not excluded; after the call the cells of the slice
    hold those entries, in their order, and then nil; no cell outside the
    slice is written, and the state of the underlying handle is as its
    call left it. When an entry of the slice is nil, [ReadDir] panics; and
    so it does when, after a call that removed an entry, the underlying
    [ReadDir] returns the same slice once more and has not written it
    again. *)
Theorem ReadDir_filters_in_place {State} (path : string) (hide : string -> bool)
    (hidden : gmap string bool) (rd : Slices.ReadDir_t State) (n : Z)
    (w : Slices.World State) (des : Slices.slice) (m : Slices.Memory) (s : State) :
  rd n w = ((des, None), (m, s)) ->
  let skipF de := hide (filepath.Clean (path +:+ "/" +:+ DirEntry_Name de)) in
  let skipP de := map_index hidden (filepath.Join [path; DirEntry_Name de]) in
  (forall l, Slices.contents m des = map Some l ->
     let keptF := filter (fun de => skipF de = false) l in
     let keptP := filter (fun de => skipP de = false) l in
     (exists m',
        Slices.excludeFnDir_ReadDir path hide rd n w
        = Returns ((Slices.upto des (length keptF), None), (m', s)) /\
        Slices.contents m' des
        = map Some keptF ++ replicate (length l - length keptF) None /\
        (forall a, ~ (Slices.ptr des <= a < Slices.ptr des + Slices.len des) ->
           Slices.load m' a = Slices.load m a) /\
        (length keptF < length l ->
         forall n' s', rd n' (m', s) = ((des, None), (m', s')) ->
           Slices.excludeFnDir_ReadDir path hide rd n' (m', s)
           = Panics Slices.nil_dereference)) /\
     (exists m',
        Slices.excludePathsDir_ReadDir path hidden rd n w
        = Returns ((Slices.upto des (length keptP), None), (m', s)) /\
        Slices.contents m' des
        = map Some keptP ++ replicate (length l - length keptP) None /\
        (forall a, ~ (Slices.ptr des <= a < Slices.ptr des + Slices.len des) ->
           Slices.load m' a = Slices.load m a) /\
        (length keptP < length l ->
         forall n' s', rd n' (m', s) = ((des, None), (m', s')) ->
           Slices.excludePathsDir_ReadDir path hidden rd n' (m', s)
           = Panics Slices.nil_dereference))) /\
  (None ∈ Slices.contents m des ->
     Slices.excludeFnDir_ReadDir path hide rd n w = Panics Slices.nil_dereference /\
     Slices.excludePathsDir_ReadDir path hidden rd n w
     = Panics Slices.nil_dereference).
Proof.
  intros Hcall skipF skipP.
  assert (forall (l kept : list DirEntry) m',
            Slices.contents m' des
            = map Some kept ++ replicate (length l - length kept) None ->
            length kept < length l -> None ∈ Slices.contents m' des) as Hleft.
  { intros l kept m' -> Hlt. apply elem_of_app. right.
    apply elem_of_replicate. split; [done|lia]. }
  split.
  - intros l Hl keptF keptP. split.
    + destruct (Slices_compact_kept skipF des l m Hl) as (m' & Hc & _ & Hall & Hout).
      exists m'. split_and!; [|exact Hall|exact Hout|].
      * rewrite (Slices_FnFS_ReadDir_compact path hide rd n w des m s Hcall).
        fold skipF. by rewrite Hc.
      * intros Hlt n' s' Hcall'.
        rewrite (Slices_FnFS_ReadDir_compact path hide rd n' _ des m' s' Hcall').
        rewrite Slices_compact_nil; [done|]. by apply (Hleft l keptF).
    + destruct (Slices_compact_kept skipP des l m Hl) as (m' & Hc & _ & Hall & Hout).
      exists m'. split_and!; [|exact Hall|exact Hout|].
      * rewrite (Slices_PathsFS_ReadDir_compact path hidden rd n w des m s Hcall).
        fold skipP. by rewrite Hc.
      * intros Hlt n' s' Hcall'.
        rewrite (Slices_PathsFS_ReadDir_compact path hidden rd n' _ des m' s' Hcall').
        rewrite Slices_compact_nil; [done|]. by apply (Hleft l keptP).
  - intros Hnil. split.
    + rewrite (Slices_FnFS_ReadDir_compact path hide rd n w des m s Hcall).
      by rewrite Slices_compact_nil.
    + rewrite (Slices_PathsFS_ReadDir_compact path hidden rd n w des m s Hcall).
      by rewrite Slices_compact_nil.
Qed.

(** A handle that keeps the array of its listing, [a] and [b] in the
    cells 1 and 2, and [a] hidden. The first [ReadDir] returns the cell 1,
    which now holds [b], and leaves nil in the cell 2: the listing that
    the handle kept has changed. The second [ReadDir] gets the same slice
    and panics. *)
Lemma ReadDir_filters_in_place_witness :
  let des := {| Slices.ptr := 1; Slices.len := 2 |} in
  let rd : Slices.ReadDir_t unit := Slices.keeping des in
  let hide := fun s => bool_decide (s = "a") in
  let hidden : gmap string bool := {[ "a" := true ]} in
  let m : Slices.Memory := {[ 1 := Some (MemFS.f "a"); 2 := Some (MemFS.f "b") ]} in
  let m' : Slices.Memory := {[ 1 := Some (MemFS.f "b"); 2 := None ]} in
  rd (-1)%Z (m, ()) = ((des, None), (m, ())) /\
  Slices.contents m des = map Some [MemFS.f "a"; MemFS.f "b"] /\
  (exists m1,
     Slices.excludeFnDir_ReadDir "." hide rd (-1)%Z (m, ())
     = Returns ((Slices.upto des 1, None), (m1, ())) /\
     Slices.contents m1 des = [Some (MemFS.f "b"); None] /\
     (forall a, ~ (1 <= a < 1 + 2) -> Slices.load m1 a = Slices.load m a) /\
     Slices.excludeFnDir_ReadDir "." hide rd (-1)%Z (m1, ())
     = Panics Slices.nil_dereference) /\
  Slices.excludePathsDir_ReadDir "." hidden rd (-1)%Z (m, ())
  = Returns ((Slices.upto des 1, None), (m', ())) /\
  rd (-1)%Z (m', ()) = ((des, None), (m', ())) /\
  None ∈ Slices.contents m' des /\
  Slices.excludePathsDir_ReadDir "." hidden rd (-1)%Z (m', ())
  = Panics Slices.nil_dereference /\
  Slices.ReadDir_calls (Slices.excludePathsDir_ReadDir "." hidden rd)
    [-1; -1]%Z (m, ())
  = Panics Slices.nil_dereference.
Proof.
  intros des rd hide hidden m m'.
  assert (rd (-1)%Z (m, ()) = ((des, None), (m, ()))) as H1 by done.
  assert (rd (-1)%Z (m', ()) = ((des, None), (m', ()))) as H2 by done.
  assert (Slices.contents m des = map Some [MemFS.f "a"; MemFS.f "b"]) as Hm
    by (by vm_compute).
  assert (None ∈ Slices.contents m' des) as Hnil.
  { replace (Slices.contents m' des) with [Some (MemFS.f "b"); None]
      by (by vm_compute).
    apply elem_of_cons. right. apply elem_of_cons. by left. }
  destruct (ReadDir_filters_in_place "." hide hidden rd (-1)%Z (m, ()) des m ()
              H1) as [Hkept _].
  destruct (Hkept _ Hm) as [(m1 & HF1 & HF2 & HF3 & HF4) _].
  destruct (ReadDir_filters_in_place "." hide hidden rd (-1)%Z (m', ()) des m' ()
              H2) as [_ Hpanic].
  destruct (Hpanic Hnil) as [_ HPp].
  split_and!; [exact H1|exact Hm| |by vm_compute|exact H2|exact Hnil
               |exact HPp|by vm_compute].
  exists m1. split_and!; [exact HF1|exact HF2|exact HF3|].
  apply (HF4 ltac:(vm_compute; lia) (-1)%Z ()). done.
Defined.

(** ** The chain and the spelling of a path *)

Lemma dirs_cleaned r o p : wf_out r o -> p ∈ dirs r o -> Clean p = p.
Proof.
  induction o as [|e o IH]; intros Hwf Hin.
  - apply list_elem_of_singleton in Hin as ->. apply Clean_rendered, wf_out_nil.
  - pose proof (wf_out_tail _ _ Hwf) as Hwf'. simpl in Hwf'.
    destruct o as [|e' o].
    + apply list_elem_of_singleton in Hin as ->. apply Clean_rendered, wf_out_nil.
    + change (dirs r (e :: e' :: o))
        with (render r (e' :: o) :: dirs r (e' :: o)) in Hin.
      apply elem_of_cons in Hin as [->|Hin]; [by apply Clean_rendered|by apply IH].
Qed.

(** Every member of the chain is a cleaned path. *)
Lemma pathPrefixes_cleaned path pfx : pfx ∈ pathPrefixes path -> Clean pfx = pfx.
Proof.
  rewrite pathPrefixes_dirs. intros [->|Hin]%elem_of_cons.
  - apply Clean_idempotent.
  - eapply dirs_cleaned; [apply Clean_wf|done].
Qed.

Lemma rooted_Clean path : rooted (Clean path) = rooted path.
Proof. rewrite Clean_render. apply render_rooted, Clean_wf. Qed.

Lemma Clean_buf_Clean path : out (Clean_buf (Clean path)) = out (Clean_buf path).
Proof. rewrite Clean_render. apply Clean_buf_render, Clean_wf. Qed.

Lemma Clean_nonempty path : Clean path <> "".
Proof. rewrite Clean_render. apply render_nonempty, Clean_wf. Qed.

Lemma pathPrefixes_Clean path : pathPrefixes (Clean path) = pathPrefixes path.
Proof.
  rewrite !pathPrefixes_dirs, Clean_idempotent, rooted_Clean, Clean_buf_Clean.
  done.
Qed.

Lemma pathPrefixes_same_Clean a b : Clean a = Clean b -> pathPrefixes a = pathPrefixes b.
Proof. intros H. by rewrite <-(pathPrefixes_Clean a), H, pathPrefixes_Clean. Qed.

Lemma Clean_app_name p x :
  p <> "" -> is_name x ->
  Clean (p +:+ "/" +:+ x) = render (rooted p) (x :: out (Clean_buf p)).
Proof.
  intros Hp Hx. by rewrite Clean_render, rooted_app, Clean_buf_app_name.
Qed.

(** The full path of an entry depends on the cleaned path of the
    directory only. *)
Lemma Clean_app_name_Clean p x :
  p <> "" -> is_name x ->
  Clean (p +:+ "/" +:+ x) = Clean (Clean p +:+ "/" +:+ x).
Proof.
  intros Hp Hx. rewrite !Clean_app_name by (done || apply Clean_nonempty).
  by rewrite rooted_Clean, Clean_buf_Clean.
Qed.

Lemma FnFS_Open_decorate {World} (f : FnFS.excludeFnFS World) name w :
  (forall pfx, pfx ∈ pathPrefixes name -> FnFS.hide f pfx = false) ->
  FnFS.excludeFnFS_Open f name w
  = Open_rest (FnFS.fsys f) name (FnFS_decorate f name) w.
Proof. apply FnFS_Open_visible. Qed.

Lemma PathsFS_Open_decorate {World} (f : PathsFS.excludePathsFS World) name w :
  (forall pfx, pfx ∈ pathPrefixes name ->
               map_index (PathsFS.hidden f) pfx = false) ->
  PathsFS.excludePathsFS_Open f name w
  = Open_rest (PathsFS.fsys f) name (PathsFS_decorate f name) w.
Proof. apply PathsFS_Open_visible. Qed.

(** However a path is spelled (doubled separators, [.] and [..] elements,
    a trailing separator), [Open] of either wrapper decides on the chain of
    its cleaned form, whose members are all cleaned paths: with a hidden
    member it returns the error, carrying the name as it was given; with
    none it goes on to the underlying [Open] with the name as it was
    given. The entries a directory handle skips depend on the cleaned form
    of the name it was opened under only. *)
Theorem exclusion_is_decided_on_the_cleaned_path {World} (fsys : FS World)
    (hide : string -> bool) (hidden : gmap string bool)
    (name name' : string) (w : World) :
  filepath.Clean name = filepath.Clean name' ->
  let fF := {| FnFS.fsys := fsys; FnFS.hide := hide |} in
  let fP := {| PathsFS.fsys := fsys; PathsFS.hidden := hidden |} in
  pathPrefixes name = pathPrefixes name' /\
  (forall pfx, pfx ∈ pathPrefixes name -> filepath.Clean pfx = pfx) /\
  (forall pfx, pfx ∈ pathPrefixes name' -> hide pfx = true ->
     FnFS.excludeFnFS_Open fF name w
     = (Err (PathError "open" name ErrNotExist), w)) /\
  ((forall pfx, pfx ∈ pathPrefixes name' -> hide pfx = false) ->
     FnFS.excludeFnFS_Open fF name w
     = Open_rest fsys name (FnFS_decorate fF name) w) /\
  (forall pfx, pfx ∈ pathPrefixes name' -> map_index hidden pfx = true ->
     PathsFS.excludePathsFS_Open fP name w
     = (Err (PathError "open" name ErrNotExist), w)) /\
  ((forall pfx, pfx ∈ pathPrefixes name' -> map_index hidden pfx = false) ->
     PathsFS.excludePathsFS_Open fP name w
     = Open_rest fsys name (PathsFS_decorate fP name) w) /\
  (name <> "" -> name' <> "" ->
   forall de, is_name (DirEntry_Name de) ->
     FnFS_skip fF name de = FnFS_skip fF name' de /\
     PathsFS_skip fP name de = PathsFS_skip fP name' de).
Proof.
  intros Hclean fF fP.
  pose proof (pathPrefixes_same_Clean _ _ Hclean) as Hchain.
  split_and!.
  - exact Hchain.
  - intros pfx. apply pathPrefixes_cleaned.
  - intros pfx Hin Hh. rewrite <-Hchain in Hin.
    by apply (FnFS_Open_excluded fF name pfx).
  - intros Hvis. rewrite <-Hchain in Hvis. by apply (FnFS_Open_decorate fF).
  - intros pfx Hin Hh. rewrite <-Hchain in Hin.
    by apply (PathsFS_Open_excluded fP name pfx).
  - intros Hvis. rewrite <-Hchain in Hvis. by apply (PathsFS_Open_decorate fP).
  - intros Hn Hn' de Hde. unfold FnFS_skip, PathsFS_skip.
    rewrite !Join_pair by done.
    rewrite (Clean_app_name_Clean name), (Clean_app_name_Clean name')
      by done.
    by rewrite Hclean.
Qed.

(** On the test tree with [g/h] hidden, [g/h/i] spelled with a detour does
    not open, and the error names the spelling. *)
Lemma exclusion_is_decided_on_the_cleaned_path_witness :
  let fsys := MemFS.FS MemFS.test_tree in
  let hide := fun s => bool_decide (s = "g/h") in
  filepath.Clean "a/../g/./h//i/" = filepath.Clean "g/h/i" /\
  "g/h" ∈ pathPrefixes "g/h/i" /\
  FnFS.excludeFnFS_Open {| FnFS.fsys := fsys; FnFS.hide := hide |}
    "a/../g/./h//i/" []
  = (Err (PathError "open" "a/../g/./h//i/" ErrNotExist), []).
Proof.
  intros fsys hide.
  assert (filepath.Clean "a/../g/./h//i/" = filepath.Clean "g/h/i") as Hc
    by reflexivity.
  assert ("g/h" ∈ pathPrefixes "g/h/i") as Hin by (vm_compute; right; left).
  destruct (exclusion_is_decided_on_the_cleaned_path fsys hide ∅
              "a/../g/./h//i/" "g/h/i" [] Hc) as (_ & _ & H & _).
  split_and!; [exact Hc|exact Hin|exact (H "g/h" Hin eq_refl)].
Defined.

(** ** What the constructors return *)

(** Both [ExcludePaths] on a list without the root: they return the
    wrappers over one and the same map, which answers [true] exactly on
    the paths of the list. *)
Lemma ExcludePaths_returns {World} (fsys : FS World) hide :
  "." ∉ hide ->
  exists hidden,
    (forall p, map_index hidden p = bool_decide (p ∈ hide)) /\
    PathsFS.ExcludePaths fsys hide
    = Returns (PathsFS.excludePathsFS_FS
                 {| PathsFS.fsys := fsys; PathsFS.hidden := hidden |}) /\
    FnFS.ExcludePaths fsys hide
    = Returns (FnFS.excludeFnFS_FS
                 {| FnFS.fsys := fsys; FnFS.hide := fun s => map_index hidden s |}).
Proof.
  intros Hroot.
  destruct (PathsFS_ExcludePaths_range_returns hide ∅ Hroot) as (hidden & Hret & Hidx).
  assert (forall p, map_index hidden p = bool_decide (p ∈ hide)) as Hidx'.
  { intros p. rewrite Hidx. unfold map_index. rewrite lookup_empty. simpl.
    by rewrite orb_false_r. }
  exists hidden. split_and!; [exact Hidx'| |].
  - unfold PathsFS.ExcludePaths. by rewrite Hret.
  - unfold FnFS.ExcludePaths.
    pose proof (FnFS_ExcludePaths_range_eq hide ∅) as HF. rewrite Hret in HF.
    rewrite HF. unfold FnFS.ExcludeFn. rewrite Hidx'.
    by rewrite bool_decide_eq_false_2.
Qed.

Lemma ExcludePaths_returned_root_free {World} (fsys : FS World) hide :
  (is_Some (returned (PathsFS.ExcludePaths fsys hide)) -> "." ∉ hide) /\
  (is_Some (returned (FnFS.ExcludePaths fsys hide)) -> "." ∉ hide).
Proof.
  split; intros [F HF] Hin.
  - unfold PathsFS.ExcludePaths in HF.
    by rewrite (PathsFS_ExcludePaths_range_root hide ∅ Hin) in HF.
  - unfold FnFS.ExcludePaths in HF.
    assert (FnFS.ExcludePaths_range hide ∅
            = Panics ("ExcludePaths: cannot hide path " +:+ quote +:+ "." +:+ quote))
      as HR.
    { etrans; [apply FnFS_ExcludePaths_range_eq|].
      by apply PathsFS_ExcludePaths_range_root. }
    by rewrite HR in HF.
Qed.

(** ** The root *)

Lemma pathPrefixes_of_root name :
  Clean name = "." -> pathPrefixes name = ["."; "."].
Proof.
  intros H. rewrite (pathPrefixes_same_Clean name "."); [by vm_compute|].
  by rewrite H.
Qed.

(** The root cannot be excluded: a wrapper that a constructor returned
    never answers [Open] of the root with its own error, however the root
    is spelled (["."], [""], ["./"], ["a/.."], ...); it goes on to the
    underlying [Open] with the name as it was given. *)
Theorem root_is_never_excluded {World} (fsys : FS World)
    (hideFn : string -> bool) (hide : list string) (name : string) (w : World) :
  filepath.Clean name = "." ->
  (forall F, FnFS.ExcludeFn fsys hideFn = Returns F ->
     Open F name w
     = Open_rest fsys name
         (FnFS_decorate {| FnFS.fsys := fsys; FnFS.hide := hideFn |} name) w) /\
  (forall F, PathsFS.ExcludePaths fsys hide = Returns F ->
     exists hidden,
       Open F name w
       = Open_rest fsys name
           (PathsFS_decorate
              {| PathsFS.fsys := fsys; PathsFS.hidden := hidden |} name) w) /\
  (forall F, FnFS.ExcludePaths fsys hide = Returns F ->
     exists hideF,
       Open F name w
       = Open_rest fsys name
           (FnFS_decorate {| FnFS.fsys := fsys; FnFS.hide := hideF |} name) w).
Proof.
  intros Hroot. pose proof (pathPrefixes_of_root name Hroot) as Hchain.
  assert (forall h : string -> bool, h "." = false ->
            forall pfx, pfx ∈ pathPrefixes name -> h pfx = false) as Hvis.
  { intros h Hh pfx. rewrite Hchain.
    intros [->|[->|Hin]%elem_of_cons]%elem_of_cons; [done|done|].
    by apply elem_of_nil in Hin. }
  split_and!.
  - intros F HF. unfold FnFS.ExcludeFn in HF.
    destruct (hideFn ".") eqn:Hh; [done|]. injection HF as <-.
    cbn [Open FnFS.excludeFnFS_FS].
    by rewrite FnFS_Open_decorate by (by apply Hvis).
  - intros F HF.
    assert ("." ∉ hide) as Hfree.
    { apply (proj1 (ExcludePaths_returned_root_free fsys hide)).
      rewrite HF. by eexists. }
    destruct (ExcludePaths_returns fsys hide Hfree) as (hidden & Hidx & HP & _).
    rewrite HP in HF. injection HF as <-. exists hidden.
    cbn [Open PathsFS.excludePathsFS_FS].
    rewrite PathsFS_Open_decorate; [done|].
    apply (Hvis (map_index hidden)). rewrite Hidx.
    by apply bool_decide_eq_false_2.
  - intros F HF.
    assert ("." ∉ hide) as Hfree.
    { apply (proj2 (ExcludePaths_returned_root_free fsys hide)).
      rewrite HF. by eexists. }
    destruct (ExcludePaths_returns fsys hide Hfree) as (hidden & Hidx & _ & HFn).
    rewrite HFn in HF. injection HF as <-. eexists.
    cbn [Open FnFS.excludeFnFS_FS].
    rewrite FnFS_Open_decorate; [done|].
    apply (Hvis (fun s => map_index hidden s)). rewrite Hidx.
    by apply bool_decide_eq_false_2.
Qed.

(** With every path but the root matching the predicate, the root of the
    test tree still opens, and lists nothing. *)
Lemma root_is_never_excluded_witness :
  let fsys := MemFS.FS MemFS.test_tree in
  let hideFn := fun s : string => bool_decide (s <> ".") in
  let F := FnFS.excludeFnFS_FS {| FnFS.fsys := fsys; FnFS.hide := hideFn |} in
  filepath.Clean "." = "." /\
  FnFS.ExcludeFn fsys hideFn = Returns F /\
  Open F "." []
  = Open_rest fsys "."
      (FnFS_decorate {| FnFS.fsys := fsys; FnFS.hide := hideFn |} ".") [] /\
  Open_error F "." [] = None /\
  Open_ReadDir F "." (-1)%Z [] = Some ([], None) /\
  Open_error F "a" [] = Some (PathError "open" "a" ErrNotExist).
Proof.
  intros fsys hideFn F.
  assert (filepath.Clean "." = ".") as Hc by reflexivity.
  assert (FnFS.ExcludeFn fsys hideFn = Returns F) as HF by reflexivity.
  destruct (root_is_never_excluded fsys hideFn [] "." [] Hc) as (H & _ & _).
  split_and!; [exact Hc|exact HF|exact (H F HF)|by vm_compute..].
Defined.

(** ** Hide paths that are not cleaned *)

Lemma Join_pair_cleaned name x :
  name <> "" -> Clean (filepath.Join [name; x]) = filepath.Join [name; x].
Proof. intros H. rewrite Join_pair by done. apply Clean_idempotent. Qed.

(** A path of the hide list that is not in cleaned form ([b/], [./f],
    [g//h], the empty string) hides nothing: the exclusion tests look up
    cleaned paths only. With a list of such paths [ExcludePaths] of either
    file returns a wrapper whose [Open] never answers with its own error,
    and whose directory handles skip no entry. *)
Theorem uncleaned_hide_paths_hide_nothing {World} (fsys : FS World)
    (hide : list string) (name : string) (w : World) :
  Forall (fun h => filepath.Clean h <> h) hide ->
  exists hidden,
    let fP := {| PathsFS.fsys := fsys; PathsFS.hidden := hidden |} in
    let fF := {| FnFS.fsys := fsys; FnFS.hide := fun s => map_index hidden s |} in
    PathsFS.ExcludePaths fsys hide = Returns (PathsFS.excludePathsFS_FS fP) /\
    FnFS.ExcludePaths fsys hide = Returns (FnFS.excludeFnFS_FS fF) /\
    PathsFS.excludePathsFS_Open fP name w
    = Open_rest fsys name (PathsFS_decorate fP name) w /\
    FnFS.excludeFnFS_Open fF name w
    = Open_rest fsys name (FnFS_decorate fF name) w /\
    (forall de, FnFS_skip fF name de = false) /\
    (name <> "" -> forall de, PathsFS_skip fP name de = false).
Proof.
  intros Hhide.
  assert (forall p, Clean p = p -> p ∉ hide) as Hnot.
  { intros p Hp Hin. rewrite Forall_forall in Hhide. by apply (Hhide p Hin). }
  destruct (ExcludePaths_returns fsys hide (Hnot "." eq_refl))
    as (hidden & Hidx & HP & HF).
  assert (forall p, Clean p = p -> map_index hidden p = false) as Hfalse.
  { intros p Hp. rewrite Hidx. apply bool_decide_eq_false_2. by apply Hnot. }
  exists hidden. intros fP fF. split_and!.
  - exact HP.
  - exact HF.
  - apply (PathsFS_Open_decorate fP). intros pfx Hin.
    apply Hfalse. by eapply pathPrefixes_cleaned.
  - apply (FnFS_Open_decorate fF). intros pfx Hin.
    apply Hfalse. by eapply pathPrefixes_cleaned.
  - intros de. apply Hfalse, Clean_idempotent.
  - intros Hne de. by apply Hfalse, Join_pair_cleaned.
Qed.

(** On the test tree with [b/], [./f], [g//h] and the empty string in the
    list, the root lists all it has, and [b] opens. *)
Lemma uncleaned_hide_paths_hide_nothing_witness :
  let fsys := MemFS.FS MemFS.test_tree in
  let hide := ["b/"; "./f"; "g//h"; ""] in
  Forall (fun h => filepath.Clean h <> h) hide /\
  (exists hidden,
     PathsFS.ExcludePaths fsys hide
     = Returns (PathsFS.excludePathsFS_FS
                  {| PathsFS.fsys := fsys; PathsFS.hidden := hidden |}) /\
     forall de, PathsFS_skip
                  {| PathsFS.fsys := fsys; PathsFS.hidden := hidden |} "." de
                = false) /\
  (exists F, PathsFS.ExcludePaths fsys hide = Returns F /\
     Open_ReadDir F "." (-1)%Z []
     = Some ([MemFS.f "a"; MemFS.d "b"; MemFS.f "d"; MemFS.d "e"; MemFS.d "g"],
             None) /\
     Open_error F "b" [] = None).
Proof.
  intros fsys hide.
  assert (Forall (fun h => filepath.Clean h <> h) hide) as Hhide
    by (repeat constructor; by vm_compute).
  split; [exact Hhide|]. split.
  - destruct (uncleaned_hide_paths_hide_nothing fsys hide "." [] Hhide)
      as (hidden & HP & _ & _ & _ & _ & Hskip).
    exists hidden. split; [exact HP|]. by apply Hskip.
  - eexists. split; [reflexivity|]. split; by vm_compute.
Defined.

(** ** Listing and opening agree *)

Lemma pathPrefixes_child_incl p x pfx :
  p <> "" -> is_name x ->
  pfx ∈ pathPrefixes (p +:+ "/" +:+ x) ->
  pfx = Clean (p +:+ "/" +:+ x) \/ pfx ∈ pathPrefixes p.
Proof.
  intros Hp Hx. rewrite !pathPrefixes_dirs.
  rewrite rooted_app, Clean_buf_app_name by done.
  intros [->|Hin]%elem_of_cons; [by left|]. right.
  rewrite (Clean_render p).
  destruct (out (Clean_buf p)) as [|e o].
  - apply list_elem_of_singleton in Hin as ->. by left.
  - exact Hin.
Qed.

(** What [ReadDir] shows and what [Open] allows fit together. An entry
    that a directory handle skips does not open under the directory's name
    joined with its own: [Open] answers with the error. An entry that it
    does not skip, of a directory whose own chain is not excluded, is not
    answered with that error: [Open] goes on to the underlying [Open]. *)
Theorem listing_agrees_with_Open {World} (fsys : FS World)
    (hide : string -> bool) (hidden : gmap string bool)
    (name : string) (de : DirEntry) (w : World) :
  let child := name +:+ "/" +:+ DirEntry_Name de in
  let fF := {| FnFS.fsys := fsys; FnFS.hide := hide |} in
  let fP := {| PathsFS.fsys := fsys; PathsFS.hidden := hidden |} in
  (FnFS_skip fF name de = true ->
     FnFS.excludeFnFS_Open fF child w
     = (Err (PathError "open" child ErrNotExist), w)) /\
  (name <> "" -> PathsFS_skip fP name de = true ->
     PathsFS.excludePathsFS_Open fP child w
     = (Err (PathError "open" child ErrNotExist), w)) /\
  (name <> "" -> is_name (DirEntry_Name de) ->
   (forall pfx, pfx ∈ pathPrefixes name -> hide pfx = false) ->
   FnFS_skip fF name de = false ->
     FnFS.excludeFnFS_Open fF child w
     = Open_rest fsys child (FnFS_decorate fF child) w) /\
  (name <> "" -> is_name (DirEntry_Name de) ->
   (forall pfx, pfx ∈ pathPrefixes name -> map_index hidden pfx = false) ->
   PathsFS_skip fP name de = false ->
     PathsFS.excludePathsFS_Open fP child w
     = Open_rest fsys child (PathsFS_decorate fP child) w).
Proof.
  intros child fF fP. split_and!.
  - intros Hskip.
    apply (FnFS_Open_excluded fF child (Clean child)); [|exact Hskip].
    apply Clean_in_pathPrefixes.
  - intros Hne Hskip. unfold PathsFS_skip in Hskip. rewrite Join_pair in Hskip by done.
    apply (PathsFS_Open_excluded fP child (Clean child)); [|exact Hskip].
    apply Clean_in_pathPrefixes.
  - intros Hne Hde Hvis Hskip. apply (FnFS_Open_decorate fF).
    intros pfx [->|Hin]%pathPrefixes_child_incl; [exact Hskip|by apply Hvis|done..].
  - intros Hne Hde Hvis Hskip. apply (PathsFS_Open_decorate fP).
    unfold PathsFS_skip in Hskip. rewrite Join_pair in Hskip by done.
    intros pfx [->|Hin]%pathPrefixes_child_incl; [exact Hskip|by apply Hvis|done..].
Qed.

(** On the test tree with [b], [f], [g/h] hidden: [g] skips [h], and
    [g/h] does not open; [e] does not skip [f], and [e/f] opens and reads
    [f]. *)
Lemma listing_agrees_with_Open_witness :
  let fsys := MemFS.FS MemFS.test_tree in
  let hide := fun s => bool_decide (s ∈ ["b"; "f"; "g/h"]) in
  let fF := {| FnFS.fsys := fsys; FnFS.hide := hide |} in
  FnFS_skip fF "g" (MemFS.d "h") = true /\
  FnFS.excludeFnFS_Open fF "g/h" [] = (Err (PathError "open" "g/h" ErrNotExist), []) /\
  is_name "f" /\
  (forall pfx, pfx ∈ pathPrefixes "e" -> hide pfx = false) /\
  FnFS_skip fF "e" (MemFS.f "f") = false /\
  FnFS.excludeFnFS_Open fF "e/f" []
  = Open_rest fsys "e/f" (FnFS_decorate fF "e/f") [] /\
  Open_Read (FnFS.excludeFnFS_FS fF) "e/f" 1 [] = Some "f".
Proof.
  intros fsys hide fF.
  assert (forall pfx, pfx ∈ pathPrefixes "e" -> hide pfx = false) as Hvis.
  { intros pfx Hin. apply (range_pfxs_false hide (pathPrefixes "e")); [|done].
    by vm_compute. }
  destruct (listing_agrees_with_Open fsys hide ∅ "g" (MemFS.d "h") [])
    as (Hg & _).
  destruct (listing_agrees_with_Open fsys hide ∅ "e" (MemFS.f "f") [])
    as (_ & _ & He & _).
  split_and!; [done|exact (Hg eq_refl)|done|exact Hvis|done| |by vm_compute].
  exact (He ltac:(done) ltac:(done) Hvis eq_refl).
Defined.

(** ** A hidden path hides its subtree, and no more *)

Lemma nest_app p xs ys : nest p (xs ++ ys) = nest (nest p xs) ys.
Proof. apply foldl_app. Qed.

Lemma nest_Join p xs :
  nest p xs = match xs with
              | [] => p
              | _ => p +:+ "/" +:+ strings.Join xs "/"
              end.
Proof.
  revert p. induction xs as [|x xs IH]; intros p; [done|].
  simpl nest. rewrite IH. destruct xs as [|x' xs]; [done|].
  change (strings.Join (x :: x' :: xs) "/")
    with (x +:+ "/" +:+ strings.Join (x' :: xs) "/").
  by rewrite !string_app_assoc.
Qed.

(** [strings.Join] of a list of elements is the first with the others
    nested below. *)
Lemma Join_nest x xs : strings.Join (x :: xs) "/" = nest x xs.
Proof. rewrite nest_Join. by destruct xs. Qed.

Lemma elements_nest p xs :
  Forall no_sep xs -> elements (nest p xs) = elements p ++ xs.
Proof.
  revert p. induction xs as [|x xs IH]; intros p Hxs; simpl.
  - by rewrite app_nil_r.
  - inversion Hxs; subst. rewrite IH, elements_app_sep by done.
    by rewrite <-app_assoc.
Qed.

Lemma is_name_no_sep x : is_name x -> no_sep x.
Proof. by intros (_ & _ & _ & ?). Qed.

Lemma nest_inj x xs y ys :
  Forall is_name (x :: xs) -> Forall is_name (y :: ys) ->
  nest x xs = nest y ys -> x :: xs = y :: ys.
Proof.
  intros Hx Hy H. apply (f_equal elements) in H.
  inversion Hx; subst. inversion Hy; subst.
  rewrite !elements_nest in H
    by (eapply Forall_impl; [done|apply is_name_no_sep]).
  by rewrite (is_name_no_sep x), (is_name_no_sep y) in H.
Qed.

Lemma pathPrefixes_name x : is_name x -> pathPrefixes x = [x; "."].
Proof.
  intros Hx. rewrite pathPrefixes_dirs, Clean_render.
  assert (out (Clean_buf x) = [x]) as ->.
  { pose proof (is_name_no_sep x Hx) as Hs. unfold no_sep in Hs.
    unfold Clean_buf. rewrite Hs. simpl. by rewrite clean_elem_name. }
  assert (rooted x = false) as ->; [|done].
  destruct Hx as (? & _ & _ & Hs). destruct x as [|c x]; [done|].
  apply no_sep_cons in Hs as [Hc _]. done.
Qed.

Lemma pathPrefixes_child p x :
  Clean p = p -> p <> "." -> p <> "/" -> is_name x ->
  pathPrefixes (p +:+ "/" +:+ x) = (p +:+ "/" +:+ x) :: pathPrefixes p.
Proof.
  intros Hclean Hdot Hroot Hx.
  assert (p <> "") as Hne by (by intros ->).
  assert (out (Clean_buf p) <> []) as Ho.
  { intros Ho. rewrite Clean_render, Ho in Hclean.
    destruct (render_root (rooted p)); congruence. }
  rewrite !pathPrefixes_dirs, !Clean_render.
  rewrite rooted_app, Clean_buf_app_name by done.
  rewrite render_cons by done. rewrite <-Clean_render, Hclean.
  f_equal. destruct (out (Clean_buf p)) as [|e o] eqn:Hout; [done|].
  change (dirs (rooted p) (x :: e :: o))
    with (render (rooted p) (e :: o) :: dirs (rooted p) (e :: o)).
  by rewrite <-Hout, <-Clean_render, Hclean.
Qed.

Lemma child_not_root p x : p <> "" -> p +:+ "/" +:+ x <> "." /\ p +:+ "/" +:+ x <> "/".
Proof.
  intros Hp. destruct p as [|c p]; [done|]. rewrite string_app_cons.
  split; intros [= _ H]; by apply string_app_eq_nil in H as [_ ?].
Qed.

(** The chain of a path made of names: its leading parts, and the root. *)
Lemma names_chain y ys :
  is_name y -> Forall is_name ys ->
  Clean (nest y ys) = nest y ys /\
  forall pfx, pfx ∈ pathPrefixes (nest y ys) <->
              pfx = "." \/ exists k, k <= length ys /\ pfx = nest y (take k ys).
Proof.
  intros Hy. induction ys as [|z ys IH] using rev_ind; intros Hys.
  - pose proof (pathPrefixes_name y Hy) as Hchain. split.
    + change (nest y []) with y.
      pose proof (pathPrefixes_dirs y) as Hd. rewrite Hchain in Hd.
      by injection Hd as <- _.
    + intros pfx. simpl. rewrite Hchain, !elem_of_cons, elem_of_nil. split.
      * intros [->|[->|[]]]; [right; exists 0; done|by left].
      * intros [->|(k & _ & ->)]; [tauto|]. left. by rewrite take_nil.
  - apply Forall_app in Hys as [Hys Hz]. inversion Hz as [|? ? Hz' _]; subst.
    destruct (IH Hys) as [Hclean Hmem].
    assert (nest y ys <> "") as Hne by (apply nest_nonempty; by destruct Hy).
    assert (nest y ys <> "." /\ nest y ys <> "/") as [Hdot Hroot].
    { destruct ys as [|z' ys'] using rev_ind.
      - simpl. destruct Hy as (? & ? & ? & Hs). split; [done|]. by intros ->.
      - rewrite nest_app. simpl. apply child_not_root, nest_nonempty.
        by destruct Hy. }
    rewrite nest_app.
    change (nest (nest y ys) [z]) with (nest y ys +:+ "/" +:+ z).
    pose proof (pathPrefixes_child (nest y ys) z Hclean Hdot Hroot Hz') as Hchain.
    split.
    + pose proof (pathPrefixes_dirs (nest y ys +:+ "/" +:+ z)) as Hd.
      rewrite Hchain in Hd. by injection Hd as <- _.
    + intros pfx. rewrite Hchain, elem_of_cons, Hmem, length_app. simpl. split.
      * intros [->|[->|(k & Hk & ->)]].
        -- right. exists (S (length ys)). split; [lia|].
           rewrite take_ge by (rewrite length_app; simpl; lia).
           by rewrite nest_app.
        -- by left.
        -- right. exists k. split; [lia|]. by rewrite take_app_le.
      * intros [->|(k & Hk & ->)]; [tauto|].
        destruct (decide (k <= length ys)) as [Hle|Hgt].
        -- right. right. exists k. split; [done|]. by rewrite take_app_le.
        -- left. rewrite take_ge by (rewrite length_app; simpl; lia).
           by rewrite nest_app.
Qed.

Lemma prefix_cons_take {A} (x y : A) xs ys :
  (x :: xs) `prefix_of` (y :: ys) <->
  exists k, k <= length ys /\ x :: xs = y :: take k ys.
Proof.
  split.
  - intros [t Ht]. injection Ht as -> ->. exists (length xs). split.
    + rewrite length_app. lia.
    + by rewrite take_app_length.
  - intros (k & _ & [= -> ->]). exists (drop k ys). simpl.
    by rewrite take_drop.
Qed.

(** A path of names is in the chain of another exactly when its names
    start the names of the other. *)
Lemma names_in_chain l ys :
  l <> [] -> Forall is_name l -> ys <> [] -> Forall is_name ys ->
  strings.Join l "/" ∈ pathPrefixes (strings.Join ys "/") <-> l `prefix_of` ys.
Proof.
  intros Hl Hln Hy Hyn.
  destruct l as [|x xs]; [done|]. destruct ys as [|y ys]; [done|].
  rewrite !Join_nest. inversion Hyn as [|? ? Hy1 Hy2]; subst.
  destruct (names_chain y ys Hy1 Hy2) as [_ Hmem].
  rewrite Hmem, prefix_cons_take. split.
  - intros [Hdot|(k & Hk & Heq)].
    + exfalso. apply (f_equal elements) in Hdot.
      inversion Hln; subst.
      rewrite elements_nest in Hdot
        by (eapply Forall_impl; [done|apply is_name_no_sep]).
      rewrite (is_name_no_sep x) in Hdot by done. simpl in Hdot.
      injection Hdot as -> _. by destruct H1 as (_ & ? & _).
    + exists k. split; [done|]. apply nest_inj; [done| |done].
      constructor; [done|]. by apply Forall_take.
  - intros (k & Hk & [= -> ->]). right. by exists k.
Qed.

(** [ExcludePaths] hides subtrees, by whole path elements. With a hide
    list of paths [h1/.../hm] of names, [Open] of a path [y1/.../yn] of
    names answers with the error exactly when the names of some hidden
    path start the names of the path: the hidden path itself and all below
    it, but not a path that merely starts with the same bytes ([b] hidden
    leaves [bc] alone). Otherwise it goes on to the underlying [Open]. *)
Theorem ExcludePaths_hides_subtrees {World} (fsys : FS World)
    (hs : list (list string)) (ys : list string) (w : World) :
  Forall (fun l => l <> [] /\ Forall is_name l) hs ->
  ys <> [] -> Forall is_name ys ->
  let hide := map (fun l => strings.Join l "/") hs in
  let q := strings.Join ys "/" in
  exists hidden,
    let fP := {| PathsFS.fsys := fsys; PathsFS.hidden := hidden |} in
    let fF := {| FnFS.fsys := fsys; FnFS.hide := fun s => map_index hidden s |} in
    PathsFS.ExcludePaths fsys hide = Returns (PathsFS.excludePathsFS_FS fP) /\
    FnFS.ExcludePaths fsys hide = Returns (FnFS.excludeFnFS_FS fF) /\
    (Exists (fun l => l `prefix_of` ys) hs ->
       PathsFS.excludePathsFS_Open fP q w
       = (Err (PathError "open" q ErrNotExist), w) /\
       FnFS.excludeFnFS_Open fF q w
       = (Err (PathError "open" q ErrNotExist), w)) /\
    (~ Exists (fun l => l `prefix_of` ys) hs ->
       PathsFS.excludePathsFS_Open fP q w
       = Open_rest fsys q (PathsFS_decorate fP q) w /\
       FnFS.excludeFnFS_Open fF q w
       = Open_rest fsys q (FnFS_decorate fF q) w).
Proof.
  intros Hhs Hys Hysn hide q.
  assert ("." ∉ hide) as Hroot.
  { intros Hin. apply list_elem_of_fmap in Hin as (l & Hl & Hin).
    rewrite Forall_forall in Hhs. destruct (Hhs l Hin) as [Hne Hln].
    destruct l as [|x xs]; [done|]. rewrite Join_nest in Hl.
    apply (f_equal elements) in Hl. inversion Hln; subst.
    rewrite elements_nest in Hl
      by (eapply Forall_impl; [done|apply is_name_no_sep]).
    rewrite (is_name_no_sep x) in Hl by done. simpl in Hl.
    injection Hl as Hx _. subst x. by destruct H1 as (_ & ? & _). }
  destruct (ExcludePaths_returns fsys hide Hroot) as (hidden & Hidx & HP & HF).
  exists hidden. intros fP fF.
  assert (forall pfx, pfx ∈ pathPrefixes q ->
            map_index hidden pfx = true ->
            Exists (fun l => l `prefix_of` ys) hs) as Hhit.
  { intros pfx Hin Hh. rewrite Hidx in Hh. apply bool_decide_eq_true_1 in Hh.
    apply list_elem_of_fmap in Hh as (l & -> & Hl).
    apply Exists_exists. exists l. split; [done|].
    rewrite Forall_forall in Hhs. destruct (Hhs l Hl) as [Hne Hln].
    by apply names_in_chain. }
  split_and!; [exact HP|exact HF| |].
  - intros (l & Hl & Hpre)%Exists_exists.
    rewrite Forall_forall in Hhs. destruct (Hhs l Hl) as [Hne Hln].
    assert (strings.Join l "/" ∈ pathPrefixes q) as Hin
      by (by apply names_in_chain).
    assert (map_index hidden (strings.Join l "/") = true) as Hh.
    { rewrite Hidx. apply bool_decide_eq_true_2.
      apply list_elem_of_fmap. by exists l. }
    split.
    + by apply (PathsFS_Open_excluded fP q (strings.Join l "/")).
    + by apply (FnFS_Open_excluded fF q (strings.Join l "/")).
  - intros Hnone.
    assert (forall pfx, pfx ∈ pathPrefixes q -> map_index hidden pfx = false)
      as Hvis.
    { intros pfx Hin. destruct (map_index hidden pfx) eqn:Hh; [|done].
      destruct Hnone. by eapply Hhit. }
    split.
    + by apply (PathsFS_Open_decorate fP).
    + by apply (FnFS_Open_decorate fF).
Qed.

(** With [b] and [g/h] hidden: [g/h/i] is below [g/h]; [bc] is below
    neither, though it starts with the bytes of [b]. *)
Lemma ExcludePaths_hides_subtrees_witness :
  let hs := [["b"]; ["g"; "h"]] in
  Forall (fun l => l <> [] /\ Forall is_name l) hs /\
  Forall is_name ["g"; "h"; "i"] /\
  Forall is_name ["bc"] /\
  Exists (fun l => l `prefix_of` ["g"; "h"; "i"]) hs /\
  ~ Exists (fun l => l `prefix_of` ["bc"]) hs /\
  (exists hidden,
     PathsFS.excludePathsFS_Open
       {| PathsFS.fsys := MemFS.FS MemFS.test_tree; PathsFS.hidden := hidden |}
       "g/h/i" []
     = (Err (PathError "open" "g/h/i" ErrNotExist), [])) /\
  (exists hidden,
     let fP := {| PathsFS.fsys := MemFS.FS MemFS.test_tree;
                  PathsFS.hidden := hidden |} in
     PathsFS.excludePathsFS_Open fP "bc" []
     = Open_rest (MemFS.FS MemFS.test_tree) "bc" (PathsFS_decorate fP "bc") []).
Proof.
  intros hs.
  assert (Forall (fun l => l <> [] /\ Forall is_name l) hs) as Hhs.
  { repeat constructor; done. }
  assert (Forall is_name ["g"; "h"; "i"]) as H1 by (repeat constructor; done).
  assert (Forall is_name ["bc"]) as H2 by (repeat constructor; done).
  assert (Exists (fun l => l `prefix_of` ["g"; "h"; "i"]) hs) as H3.
  { right. left. by exists ["i"]. }
  assert (~ Exists (fun l => l `prefix_of` ["bc"]) hs) as H4.
  { intros H. apply Exists_exists in H as (l & Hl & [t Ht]).
    repeat (apply elem_of_cons in Hl as [->|Hl]; [done|]).
    by apply elem_of_nil in Hl. }
  split_and!; [exact Hhs|exact H1|exact H2|exact H3|exact H4| |].
  - destruct (ExcludePaths_hides_subtrees (MemFS.FS MemFS.test_tree) hs
                ["g"; "h"; "i"] [] Hhs ltac:(done) H1)
      as (hidden & _ & _ & Hyes & _).
    exists hidden. exact (proj1 (Hyes H3)).
  - destruct (ExcludePaths_hides_subtrees (MemFS.FS MemFS.test_tree) hs
                ["bc"] [] Hhs ltac:(done) H2)
      as (hidden & _ & _ & _ & Hno).
    exists hidden. exact (proj1 (Hno H4)).
Defined.

(** ** The hide list as a set *)

Lemma PathsFS_ExcludePaths_range_lookup hide hidden :
  "." ∉ hide ->
  exists hidden',
    PathsFS.ExcludePaths_range hide hidden = Returns hidden' /\
    forall p, hidden' !! p = if decide (p ∈ hide) then Some true else hidden !! p.
Proof.
  revert hidden. induction hide as [|q hide IH]; intros hidden Hroot.
  - exists hidden. split; [done|]. intros p.
    destruct (decide (p ∈ [])) as [Hin|]; [by apply elem_of_nil in Hin|done].
  - apply not_elem_of_cons in Hroot as [Hq Hroot].
    destruct (IH (<[q := true]> hidden) Hroot) as (hidden' & Hret & Hlook).
    exists hidden'. simpl. case_decide; [done|]. split; [done|].
    intros p. rewrite Hlook.
    destruct (decide (p ∈ hide)) as [Hin|Hnin].
    + rewrite decide_True; [done|by right].
    + destruct (decide (p = q)) as [->|Hne].
      * rewrite lookup_insert_eq. rewrite decide_True; [done|by left].
      * rewrite lookup_insert_ne by done.
        rewrite decide_False; [done|]. by intros [?|?]%elem_of_cons.
Qed.

Lemma PathsFS_ExcludePaths_range_set hide hide' :
  (forall p, p ∈ hide <-> p ∈ hide') ->
  PathsFS.ExcludePaths_range hide ∅ = PathsFS.ExcludePaths_range hide' ∅.
Proof.
  intros Hsame. destruct (decide ("." ∈ hide)) as [Hin|Hnin].
  - rewrite (PathsFS_ExcludePaths_range_root hide ∅ Hin).
    rewrite (PathsFS_ExcludePaths_range_root hide' ∅); [done|by apply Hsame].
  - destruct (PathsFS_ExcludePaths_range_lookup hide ∅ Hnin) as (m & -> & Hm).
    assert ("." ∉ hide') as Hnin' by (by rewrite <-Hsame).
    destruct (PathsFS_ExcludePaths_range_lookup hide' ∅ Hnin') as (m' & -> & Hm').
    f_equal. apply map_eq. intros p. rewrite Hm, Hm'.
    destruct (decide (p ∈ hide)) as [Hin|Hn].
    + rewrite decide_True; [done|by apply Hsame].
    + rewrite decide_False; [done|by rewrite <-Hsame].
Qed.

(** The hide list counts as a set: two lists with the same paths, in
    whatever order and however often repeated, give the same result of
    [ExcludePaths], in either file: the same panic, or wrappers that are
    equal. *)
Theorem ExcludePaths_of_the_same_paths {World} (fsys : FS World)
    (hide hide' : list string) :
  (forall p, p ∈ hide <-> p ∈ hide') ->
  PathsFS.ExcludePaths fsys hide = PathsFS.ExcludePaths fsys hide' /\
  FnFS.ExcludePaths fsys hide = FnFS.ExcludePaths fsys hide'.
Proof.
  intros Hsame. pose proof (PathsFS_ExcludePaths_range_set hide hide' Hsame) as H.
  split.
  - unfold PathsFS.ExcludePaths. by rewrite H.
  - assert (FnFS.ExcludePaths_range hide ∅ = FnFS.ExcludePaths_range hide' ∅) as HF.
    { etrans; [apply FnFS_ExcludePaths_range_eq|].
      etrans; [exact H|]. symmetry. apply FnFS_ExcludePaths_range_eq. }
    unfold FnFS.ExcludePaths. by rewrite HF.
Qed.

Lemma ExcludePaths_of_the_same_paths_witness :
  let fsys := MemFS.FS MemFS.test_tree in
  (forall p : string, p ∈ ["b"; "f"; "b"; "g/h"] <-> p ∈ ["g/h"; "b"; "f"]) /\
  PathsFS.ExcludePaths fsys ["b"; "f"; "b"; "g/h"]
  = PathsFS.ExcludePaths fsys ["g/h"; "b"; "f"] /\
  FnFS.ExcludePaths fsys ["b"; "f"; "b"; "g/h"]
  = FnFS.ExcludePaths fsys ["g/h"; "b"; "f"].
Proof.
  intros fsys.
  assert (forall p : string, p ∈ ["b"; "f"; "b"; "g/h"] <-> p ∈ ["g/h"; "b"; "f"])
    as Hsame.
  { intros p. rewrite !elem_of_cons, !elem_of_nil. tauto. }
  split; [exact Hsame|].
  exact (ExcludePaths_of_the_same_paths fsys _ _ Hsame).
Defined.

(** ** A batch with nothing to show *)

(** When the underlying [ReadDir(n)] returns entries and a nil error, the
    wrapper's [ReadDir(n)] returns an empty slice and a nil error exactly
    when every entry of the batch is excluded, also for [n > 0], where an
    empty slice otherwise comes with an error: more entries may follow. *)
Theorem ReadDir_empty_batch {World} (dF : FnFS.excludeFnDir World)
    (dP : PathsFS.excludePathsDir World) (n : Z) (w : World) :
  (forall des w',
     ReadDir (FnFS.excludeFnDir_ReadDirFile dF) n w = ((des, None), w') ->
     (Forall (fun de => FnFS_skip (FnFS.excludeFnDir_FS dF) (FnFS.path dF) de = true)
             des
      <-> FnFS.excludeFnDir_ReadDir dF n w = (([], None), w'))) /\
  (forall des w',
     ReadDir (PathsFS.excludePathsDir_ReadDirFile dP) n w = ((des, None), w') ->
     (Forall (fun de => PathsFS_skip (PathsFS.excludePathsDir_FS dP)
                          (PathsFS.path dP) de = true) des
      <-> PathsFS.excludePathsDir_ReadDir dP n w = (([], None), w'))).
Proof.
  assert (forall (skip : DirEntry -> bool) des,
            Forall (fun de => skip de = true) des
            <-> filter (fun de => skip de = false) des = []) as Hnil.
  { intros skip des. induction des as [|de des IH]; [done|].
    rewrite Forall_cons, filter_cons. destruct (skip de) eqn:Hs.
    - rewrite decide_False by done. rewrite <-IH. tauto.
    - rewrite decide_True by done. split; [by intros [? _]|done]. }
  split; intros des w' H.
  - rewrite (FnFS_ReadDir_ok dF n w des w' H).
    etrans; [apply (Hnil (FnFS_skip (FnFS.excludeFnDir_FS dF) (FnFS.path dF)))|].
    split; [intros Heq; f_equal; f_equal; exact Heq|intros [= Heq]; exact Heq].
  - rewrite (PathsFS_ReadDir_ok dP n w des w' H).
    etrans; [apply (Hnil (PathsFS_skip (PathsFS.excludePathsDir_FS dP)
                            (PathsFS.path dP)))|].
    split; [intros Heq; f_equal; f_equal; exact Heq|intros [= Heq]; exact Heq].
Qed.

(** The directory [g] of the test tree with [g/h] hidden, asked for one
    entry: the underlying call returns [h], the wrapper nothing and no
    error; the next call returns [io.EOF]. *)
Lemma ReadDir_empty_batch_witness :
  let hide := fun s => bool_decide (s = "g/h") in
  let h := MemFS.handle "g" (MemFS.dir [MemFS.d "h"]) 0 in
  let rdf := {| Stat := File_Stat h; Read := File_Read h; Close := File_Close h;
                ReadDir := MemFS.dir_ReadDir [MemFS.d "h"] 0 |} in
  let dF := {| FnFS.path := "g";
               FnFS.excludeFnDir_FS :=
                 {| FnFS.fsys := MemFS.FS MemFS.test_tree; FnFS.hide := hide |};
               FnFS.excludeFnDir_ReadDirFile := rdf |} in
  ReadDir rdf 1%Z [0] = (([MemFS.d "h"], None), [1]) /\
  Forall (fun de => FnFS_skip (FnFS.excludeFnDir_FS dF) "g" de = true)
         [MemFS.d "h"] /\
  FnFS.excludeFnDir_ReadDir dF 1%Z [0] = (([], None), [1]) /\
  FnFS.excludeFnDir_ReadDir dF 1%Z [1] = (([], Some EOF), [1]).
Proof.
  intros hide h rdf dF.
  assert (ReadDir rdf 1%Z [0] = (([MemFS.d "h"], None), [1])) as H by done.
  assert (Forall (fun de => FnFS_skip (FnFS.excludeFnDir_FS dF) "g" de = true)
                 [MemFS.d "h"]) as Hall by (repeat constructor).
  destruct (ReadDir_empty_batch dF
              {| PathsFS.path := "g";
                 PathsFS.excludePathsDir_FS :=
                   {| PathsFS.fsys := MemFS.FS MemFS.test_tree;
                      PathsFS.hidden := ∅ |};
                 PathsFS.excludePathsDir_ReadDirFile := rdf |} 1%Z [0])
    as [HF _].
  split_and!; [exact H|exact Hall|exact (proj1 (HF _ _ H) Hall)|done].
Defined.

(** ** [ExcludeFn] around [ExcludeFn] *)

Lemma FnFS_Open_nested {World} (fsys : FS World)
    (h1 h2 : string -> bool) name w :
  Stat_repeats fsys name w ->
  Open_rel ReadDir_same
    (FnFS.excludeFnFS_Open
       {| FnFS.fsys := FnFS.excludeFnFS_FS {| FnFS.fsys := fsys; FnFS.hide := h1 |};
          FnFS.hide := h2 |} name w)
    (FnFS.excludeFnFS_Open
       {| FnFS.fsys := fsys; FnFS.hide := fun p => h1 p || h2 p |} name w).
Proof.
  intros Hstat.
  unfold FnFS.excludeFnFS_Open. cbn [FnFS.fsys FnFS.hide].
  rewrite (range_pfxs_or h1 h2 (fun p => h1 p || h2 p)) by done.
  destruct (range_pfxs h2 (pathPrefixes name)) eqn:Hr2.
  { by rewrite orb_true_r. }
  rewrite orb_false_r.
  cbn [Open FnFS.excludeFnFS_FS].
  unfold FnFS.excludeFnFS_Open. cbn [FnFS.fsys FnFS.hide].
  destruct (range_pfxs h1 (pathPrefixes name)) eqn:Hr1; [done|].
  destruct (Open fsys name w) as [[file|err] w1] eqn:HO; [|done].
  destruct (File_Stat file w1) as [[fi|err] w2] eqn:HS; [|done].
  destruct (Hstat file w1 fi w2 HO HS) as (fi' & HS' & Hdir').
  unfold assert_ReadDirFile.
  destruct (FileInfo_IsDir fi) eqn:Hdir.
  - destruct (File_ReadDir file) as [rd|] eqn:Hrd.
    + cbn [File_Stat FnFS.excludeFnDir_File Stat FnFS.excludeFnDir_ReadDirFile].
      rewrite HS', Hdir'.
      cbn [File_ReadDir File_Read File_Close File_Stat FnFS.excludeFnDir_File].
      split; [done|]. split_and!; try done.
      cbn [File_ReadDir FnFS.excludeFnDir_File].
      apply ReadDir_calls_ext. intros n w'.
      unfold FnFS.excludeFnDir_ReadDir.
      cbn [FnFS.path FnFS.hide FnFS.excludeFnDir_FS
           FnFS.excludeFnDir_ReadDirFile ReadDir].
      destruct (rd n w') as [[des [err|]] w'']; [done|].
      f_equal. f_equal. by apply compact_compact.
    + rewrite HS', Hdir', Hrd. split; [done|]. by apply File_rel_refl.
  - rewrite HS', Hdir'. split; [done|]. by apply File_rel_refl.
Qed.

(** [ExcludeFn] composes: for predicates [h1] and [h2] that spare the
    root, and a path and state at which [Stat] of the underlying handle
    can be asked twice, [Open] of [ExcludeFn(ExcludeFn(fsys, h1), h2)]
    returns what [Open] of [ExcludeFn(fsys, h1 or h2)] returns: the same
    error, or handles with the same [Stat], [Read] and [Close] and with
    the same results of every sequence of [ReadDir] calls, and the same
    state. *)
Theorem nested_ExcludeFn_is_disjunction {World} (fsys : FS World)
    (h1 h2 : string -> bool) (name : string) (w : World) :
  h1 "." = false -> h2 "." = false ->
  Stat_repeats fsys name w ->
  exists inner outer both,
    FnFS.ExcludeFn fsys h1 = Returns inner /\
    FnFS.ExcludeFn inner h2 = Returns outer /\
    FnFS.ExcludeFn fsys (fun p => h1 p || h2 p) = Returns both /\
    Open_rel ReadDir_same (Open outer name w) (Open both name w).
Proof.
  intros H1 H2 Hstat. eexists _, _, _. split_and!.
  - unfold FnFS.ExcludeFn. by rewrite H1.
  - unfold FnFS.ExcludeFn. by rewrite H2.
  - unfold FnFS.ExcludeFn. by rewrite H1, H2.
  - cbn [Open FnFS.excludeFnFS_FS]. by apply FnFS_Open_nested.
Qed.

Lemma nested_ExcludeFn_is_disjunction_witness :
  let fsys := MemFS.FS MemFS.test_tree in
  let h1 := fun s : string => bool_decide (s = "b") in
  let h2 := fun s : string => bool_decide (s = "g/h") in
  h1 "." = false /\ h2 "." = false /\
  Stat_repeats fsys "." [] /\
  (exists inner outer both,
     FnFS.ExcludeFn fsys h1 = Returns inner /\
     FnFS.ExcludeFn inner h2 = Returns outer /\
     FnFS.ExcludeFn fsys (fun p => h1 p || h2 p) = Returns both /\
     Open_rel ReadDir_same (Open outer "." []) (Open both "." []) /\
     Open_ReadDir outer "." (-1)%Z []
     = Some ([MemFS.f "a"; MemFS.f "d"; MemFS.d "e"; MemFS.d "g"], None) /\
     Open_error outer "g/h/i" [] = Some (PathError "open" "g/h/i" ErrNotExist)).
Proof.
  intros fsys h1 h2.
  pose proof (MemFS_Stat_repeats MemFS.test_tree "." []) as Hstat.
  split_and!; [done|done|exact Hstat|].
  destruct (nested_ExcludeFn_is_disjunction fsys h1 h2 "." [] eq_refl eq_refl Hstat)
    as (inner & outer & both & Hi & Ho & Hb & Hrel).
  exists inner, outer, both.
  split_and!; [exact Hi|exact Ho|exact Hb|exact Hrel| |].
  - injection Hi as <-. injection Ho as <-. by vm_compute.
  - injection Hi as <-. injection Ho as <-. by vm_compute.
Defined.
